(** * A tool-calling chat agent: [tools.py] and the orchestration loop of [app.py]

    Shallow embedding of the two side-effect handlers
    ([record_customer_interest], [record_feedback]), of the tool registry
    [TOOLS_MAP], of the loop [_run_tools_if_any] and of [ask].

    Conventions.
    - A Python [str] is a [string]; each character is read as the code point
      of the same number (U+0000 to U+00FF).
    - A Python value that can reach a handler as a keyword argument is a
      [pyval]; a [dict] keeps its insertion order, so it is an association
      list.
    - What the process cannot decide itself is part of the [world]: the
      results of [uuid.uuid4()], the clock, the files under [LOG_DIR] and the
      lines printed.  Printing and appending to a file are taken to succeed.
      The chat session of the remote model is a [chat]: the history and the
      remote model's answer to each history. *)

From Stdlib Require Import Ascii String.
From stdpp Require Import base option list strings pretty gmap.

Set Warnings "-register-all".

Local Open Scope list_scope.
Local Open Scope string_scope.

(** ** Python values

    The values a function call of the model can carry: numbers arrive as
    floats, of which only [n = 0] or not matters here. *)

Inductive pyval : Type :=
| VNone
| VBool (b : bool)
| VNum (n : Z)
| VStr (s : string)
| VList (l : list pyval)
| VDict (d : list (string * pyval)).

(** A [dict] with string keys, in insertion order. *)
Abbreviation pydict := (list (string * pyval)).

(** Truth value of [v] in a boolean context ([x or y], [if not x]). *)
Definition truthy (v : pyval) : bool :=
  match v with
  | VNone => false
  | VBool b => b
  | VNum n => negb (Z.eqb n 0)
  | VStr s => negb (String.eqb s "")
  | VList l => match l with [] => false | _ => true end
  | VDict d => match d with [] => false | _ => true end
  end.

(** [x or y] *)
Definition py_or (x y : pyval) : pyval := if truthy x then x else y.

(** [type(v).__name__] *)
Definition type_name (v : pyval) : string :=
  match v with
  | VNone => "NoneType"
  | VBool _ => "bool"
  | VNum _ => "float"
  | VStr _ => "str"
  | VList _ => "list"
  | VDict _ => "dict"
  end.

Definition dict_get (d : pydict) (k : string) : option pyval :=
  snd <$> List.find (fun kv => String.eqb (fst kv) k) d.

Definition dict_keys (d : pydict) : list string := map fst d.

(** ** Exceptions

    An exception is known by the method resolution order of its class (the
    class itself first) and by [str(e)].  [except C] catches [e] when [C] is
    in that order. *)

Record exn : Type := mkExn { exn_mro : list string; exn_str : string }.

Definition class_name (e : exn) : string := hd "" (exn_mro e).

Definition isinstance (e : exn) (cls : string) : bool :=
  existsb (String.eqb cls) (exn_mro e).

Definition TypeError (msg : string) : exn :=
  mkExn ["TypeError"; "Exception"; "BaseException"; "object"] msg.
Definition AttributeError (msg : string) : exn :=
  mkExn ["AttributeError"; "Exception"; "BaseException"; "object"] msg.
Definition IndexError (msg : string) : exn :=
  mkExn ["IndexError"; "LookupError"; "Exception"; "BaseException"; "object"] msg.

(** The result of running a statement in state [S]: it returns, or it raises
    and leaves the state the effects before the raise produced. *)
Inductive outcome (S A : Type) : Type :=
| Ret (a : A) (s : S)
| Raise (e : exn) (s : S).
Arguments Ret {S A} a s.
Arguments Raise {S A} e s.

Definition bind {S A B} (m : S -> outcome S A) (k : A -> S -> outcome S B)
  : S -> outcome S B :=
  fun s => match m s with
           | Ret a s' => k a s'
           | Raise e s' => Raise e s'
           end.

Definition ret {S A} (a : A) : S -> outcome S A := fun s => Ret a s.
Definition raise {S A} (e : exn) : S -> outcome S A := fun s => Raise e s.

Declare Scope py_scope.
Delimit Scope py_scope with py.
Notation "x <- m ;; k" := (bind m (fun x => k))
  (at level 100, m at next level, right associativity) : py_scope.
Notation "m ;;; k" := (bind m (fun _ => k))
  (at level 100, right associativity) : py_scope.

(** ** Strings: [str.strip] and the character class [\s] *)

(** [str.isspace] on one character, which is also the class [\s] of a
    [str] pattern: TAB to CR, FS to US, SPACE, NEL and NBSP. *)
Definition isspace (c : ascii) : bool :=
  let n := nat_of_ascii c in
  ((9 <=? n)%nat && (n <=? 13)%nat)
  || ((28 <=? n)%nat && (n <=? 32)%nat)
  || (n =? 133)%nat || (n =? 160)%nat.

Definition chars (s : string) : list ascii := list_ascii_of_string s.
Definition of_chars (l : list ascii) : string := string_of_list_ascii l.

Fixpoint lstrip (l : list ascii) : list ascii :=
  match l with
  | c :: l' => if isspace c then lstrip l' else l
  | [] => []
  end.

Definition strip_chars (l : list ascii) : list ascii :=
  rev (lstrip (rev (lstrip l))).

(** [s.strip()] *)
Definition strip (s : string) : string := of_chars (strip_chars (chars s)).

(** ** Regular expressions: the fragment used by [EMAIL_RE] *)

(** A pattern is a sequence of items. *)
Inductive re_item : Type :=
| Bol                              (* ^ *)
| Eol                              (* $ *)
| Lit (c : ascii)                  (* one character, also written escaped *)
| ClassPlus (p : ascii -> bool).   (* [...]+ , greedy *)

(** [$] without [re.MULTILINE]: at the end of the string, or just before a
    line feed that is the last character of the string. *)
Definition at_eol (s : list ascii) : bool :=
  match s with
  | [] => true
  | [c] => Ascii.eqb c "010"
  | _ => false
  end.

(** One or more characters of class [p], the longest run first, then [k] on
    what is left. *)
Fixpoint plus_then (p : ascii -> bool) (k : list ascii -> bool)
    (s : list ascii) : bool :=
  match s with
  | c :: s' => p c && (plus_then p k s' || k s')
  | [] => false
  end.

(** [Pattern.match]: the pattern matches at the start of the string; what
    follows the match is free.  [bos] tells whether the position is the
    beginning of the string. *)
Fixpoint re_match_at (pat : list re_item) (bos : bool) (s : list ascii) : bool :=
  match pat with
  | [] => true
  | Bol :: pat' => bos && re_match_at pat' bos s
  | Eol :: pat' => at_eol s && re_match_at pat' bos s
  | Lit c :: pat' =>
      match s with
      | c' :: s' => Ascii.eqb c c' && re_match_at pat' false s'
      | [] => false
      end
  | ClassPlus p :: pat' => plus_then p (re_match_at pat' false) s
  end.

Definition re_match (pat : list re_item) (s : string) : bool :=
  re_match_at pat true (chars s).

(** The class [[^@\s]]. *)
Definition not_at_or_space (c : ascii) : bool :=
  negb (Ascii.eqb c "@") && negb (isspace c).

(** [EMAIL_RE = re.compile(r"^[^@\s]+@[^@\s]+\.[^@\s]+$")] *)
Definition EMAIL_RE : list re_item :=
  [Bol; ClassPlus not_at_or_space; Lit "@"; ClassPlus not_at_or_space;
   Lit "."; ClassPlus not_at_or_space; Eol].

(** ** The world outside the process *)

(** A line written by [print]: its tag and the values formatted into it.
    A preview is the text and whether the ellipsis was added to it. *)
Inductive printed : Type :=
| P_lead_invalid (ts lead_id : string) (email : pyval)
| P_lead (ts lead_id : string) (email : pyval) (name : string)
         (preview : string * bool)
| P_feedback (ts fb_id : string) (preview : string * bool).

Record world : Type := mkWorld {
  uuid_src : nat -> string;   (* str(uuid.uuid4()) at the n-th call *)
  uuid_draws : nat;           (* calls of uuid4 so far *)
  clock : nat -> string;      (* datetime.now(timezone.utc).isoformat() at the n-th reading *)
  clock_reads : nat;          (* readings so far *)
  files : gmap string (list pydict);  (* LOG_DIR: file name to its lines, one object a line *)
  stdout : list printed
}.

Definition uuid4_str : world -> outcome world string := fun w =>
  Ret (uuid_src w (uuid_draws w))
      (mkWorld (uuid_src w) (S (uuid_draws w)) (clock w) (clock_reads w)
               (files w) (stdout w)).

Definition _now_iso : world -> outcome world string := fun w =>
  Ret (clock w (clock_reads w))
      (mkWorld (uuid_src w) (uuid_draws w) (clock w) (S (clock_reads w))
               (files w) (stdout w)).

Definition print (line : printed) : world -> outcome world unit := fun w =>
  Ret tt (mkWorld (uuid_src w) (uuid_draws w) (clock w) (clock_reads w)
                  (files w) (stdout w ++ [line])).

(** The lines of a file of [LOG_DIR]; a file that does not exist has none. *)
Definition read_log (path : string) (w : world) : list pydict :=
  default [] (files w !! path).

(** [_append_jsonl]: the file is opened for appending (and created when it is
    missing) and one line holding [obj] is written. *)
Definition _append_jsonl (path : string) (obj : pydict)
  : world -> outcome world unit := fun w =>
  Ret tt (mkWorld (uuid_src w) (uuid_draws w) (clock w) (clock_reads w)
                  (<[path := (read_log path w ++ [obj])%list]> (files w)) (stdout w)).

(** ** [tools.py]: the handlers *)

(** [EMAIL_RE.match(v)]: a [str] is matched, anything else is a type error. *)
Definition EMAIL_RE_match (v : pyval) : world -> outcome world bool :=
  match v with
  | VStr s => ret (re_match EMAIL_RE s)
  | _ => raise (TypeError ("expected string or bytes-like object, got '"
                           ++ type_name v ++ "'"))
  end.

(** [v.strip()] *)
Definition py_strip (v : pyval) : world -> outcome world string :=
  match v with
  | VStr s => ret (strip s)
  | _ => raise (AttributeError ("'" ++ type_name v
                                ++ "' object has no attribute 'strip'"))
  end.

(** [(s[:n] + ELLIPSIS) if len(s) > n else s] *)
Definition preview_of (n : nat) (s : string) : string * bool :=
  if (n <? String.length s)%nat then (substring 0 n s, true) else (s, false).

Definition record_customer_interest (email name message : pyval)
  : world -> outcome world pyval :=
  (lead_id <- uuid4_str ;;
   ts <- _now_iso ;;
   matched <- EMAIL_RE_match (py_or email (VStr "")) ;;
   if negb matched then
     (print (P_lead_invalid ts lead_id email) ;;;
      ret (VDict [("ok", VBool false); ("error", VStr "invalid_email");
                  ("lead_id", VStr lead_id); ("ts", VStr ts)]))
   else
     (email' <- py_strip email ;;
      name' <- py_strip (py_or name (VStr "")) ;;
      message' <- py_strip (py_or message (VStr "")) ;;
      let event : pydict :=
        [("ts", VStr ts); ("event", VStr "lead_recorded");
         ("lead_id", VStr lead_id); ("email", VStr email');
         ("name", VStr name'); ("message", VStr message')] in
      print (P_lead ts lead_id email name' (preview_of 120 message')) ;;;
      _append_jsonl "leads.jsonl" event ;;;
      ret (VDict [("ok", VBool true); ("lead_id", VStr lead_id);
                  ("ts", VStr ts)])))%py.

Definition record_feedback (question : pyval) : world -> outcome world pyval :=
  (fb_id <- uuid4_str ;;
   ts <- _now_iso ;;
   q <- py_strip (py_or question (VStr "")) ;;
   let event : pydict :=
     [("ts", VStr ts); ("event", VStr "feedback_recorded");
      ("feedback_id", VStr fb_id); ("question", VStr q)] in
   print (P_feedback ts fb_id (preview_of 140 q)) ;;;
   _append_jsonl "feedback.jsonl" event ;;;
   ret (VDict [("ok", VBool true); ("feedback_id", VStr fb_id);
               ("ts", VStr ts)]))%py.

(** ** Calling a function with keyword arguments *)

(** A function object: its name, its parameters (none has a default) and its
    body, which reads its parameters from the bound arguments. *)
Record pyfunc : Type := mkFn {
  fn_name : string;
  fn_params : list string;
  fn_body : pydict -> world -> outcome world pyval
}.

Definition arg (kw : pydict) (p : string) : pyval := default VNone (dict_get kw p).

Definition mem (k : string) (l : list string) : bool := existsb (String.eqb k) l.

Definition quoted (k : string) : string := "'" ++ k ++ "'".

(** The names of the missing parameters as the interpreter lists them. *)
Fixpoint name_list_tail (l : list string) : string :=
  match l with
  | [] => ""
  | [z] => "and " ++ quoted z
  | y :: l' => quoted y ++ ", " ++ name_list_tail l'
  end.

Definition name_list (l : list string) : string :=
  match l with
  | [] => ""
  | [a] => quoted a
  | [a; b] => quoted a ++ " and " ++ quoted b
  | _ => name_list_tail l
  end.

Definition missing_msg (fname : string) (missing : list string) : string :=
  fname ++ "() missing " ++ pretty (length missing)
        ++ " required positional argument"
        ++ (if (length missing =? 1)%nat then "" else "s")
        ++ ": " ++ name_list missing.

(** The call [fn] with the entries of [args] as keyword arguments: a keyword
    that is no parameter, then a parameter without a value, is a [TypeError]
    raised before the body runs. *)
Definition call_kwargs (fn : pyfunc) (args : pydict)
  : world -> outcome world pyval :=
  match List.filter (fun k => negb (mem k (fn_params fn))) (dict_keys args) with
  | k :: _ =>
      raise (TypeError (fn_name fn ++ "() got an unexpected keyword argument "
                                   ++ quoted k))
  | [] =>
      match List.filter (fun p => negb (mem p (dict_keys args))) (fn_params fn) with
      | [] => fn_body fn args
      | missing => raise (TypeError (missing_msg (fn_name fn) missing))
      end
  end.

Definition fn_record_customer_interest : pyfunc :=
  mkFn "record_customer_interest" ["email"; "name"; "message"]
       (fun kw => record_customer_interest (arg kw "email") (arg kw "name")
                                           (arg kw "message")).

Definition fn_record_feedback : pyfunc :=
  mkFn "record_feedback" ["question"]
       (fun kw => record_feedback (arg kw "question")).

(** ** [app.py]: the registry *)

Definition TOOLS_MAP : gmap string pyfunc :=
  <["record_customer_interest" := fn_record_customer_interest]>
    (<["record_feedback" := fn_record_feedback]> ∅).

(** ** The chat session *)

Record function_call : Type := mkCall {
  fc_name : string;
  fc_args : option pydict    (* [None]: no arguments given *)
}.

(** A part of a content, with the attributes the program reads.
    [part_text] is [None] for a part that has no attribute [text], and the
    text for a part that has one, the empty string too: a part of the SDK
    that is no text has the empty text.  [part_function_call] and
    [part_function_response] are [None] when missing or empty. *)
Record part : Type := mkPart {
  part_text : option string;
  part_function_call : option function_call;
  part_function_response : option (string * pyval)
}.

Record content : Type := mkContent {
  role : string;
  parts : option (list part)   (* [None]: no [parts], or [parts] is [None] *)
}.

Record candidate : Type := mkCandidate { cand_content : content }.

(** Reading a property returns a value or raises. *)
Inductive property (A : Type) : Type :=
| Has (a : A)
| Fails (e : exn).
Arguments Has {A} a.
Arguments Fails {A} e.

Record response : Type := mkResponse {
  candidates : list candidate;
  text : property string      (* the consolidated text of the response *)
}.

(** What [send_message] is given: a string, or a content. *)
Inductive message : Type :=
| MText (s : string)
| MContent (c : content).

Inductive turn : Type :=
| Sent (m : message)
| Received (r : response).

(** The remote model answers the history that ends with the message just
    sent, or the transport fails. *)
Inductive reply : Type :=
| Reply (r : response)
| TransportError (e : exn).

Record chat : Type := mkChat {
  history : list turn;
  remote : list turn -> reply
}.

(** [chat.send_message(msg)]: the message and the answer join the history;
    a failure raises and the history stays as it was. *)
Definition send_message (msg : message) : chat -> outcome chat response :=
  fun c =>
    match remote c (history c ++ [Sent msg]) with
    | Reply r => Ret r (mkChat (history c ++ [Sent msg; Received r]) (remote c))
    | TransportError e => Raise e c
    end.

(** ** [app.py]: the orchestration loop *)

(** The state of an exchange: the session and the world. *)
Definition state : Type := chat * world.

Definition in_world {A} (m : world -> outcome world A) : state -> outcome state A :=
  fun st => match m (snd st) with
            | Ret a w => Ret a (fst st, w)
            | Raise e w => Raise e (fst st, w)
            end.

Definition in_chat {A} (m : chat -> outcome chat A) : state -> outcome state A :=
  fun st => match m (fst st) with
            | Ret a c => Ret a (c, snd st)
            | Raise e c => Raise e (c, snd st)
            end.

Definition unknown_tool_result (name : string) (args : pydict) : pyval :=
  VDict [("ok", VBool false); ("error", VStr ("unknown_tool:" ++ name));
         ("received_args", VDict args)].

Definition bad_arguments_result (e : exn) (args : pydict) : pyval :=
  VDict [("ok", VBool false); ("error", VStr ("bad_arguments:" ++ exn_str e));
         ("received_args", VDict args)].

Definition runtime_result (e : exn) : pyval :=
  VDict [("ok", VBool false);
         ("error", VStr ("runtime:" ++ class_name e ++ ":" ++ exn_str e))].

(** Lines 118 to 123: the call of the handler inside [try], with the two
    [except] clauses. *)
Definition call_guarded (fn : pyfunc) (args : pydict)
  : world -> outcome world pyval :=
  fun w =>
    match call_kwargs fn args w with
    | Ret r w' => Ret r w'
    | Raise e w' =>
        if isinstance e "TypeError" then Ret (bad_arguments_result e args) w'
        else if isinstance e "Exception" then Ret (runtime_result e) w'
        else Raise e w'
    end.

(** Lines 114 to 123: the value given to [tool_result] for the call of
    [name] with [args]. *)
Definition tool_result_of (name : string) (args : pydict)
  : world -> outcome world pyval :=
  match TOOLS_MAP !! name with
  | None => ret (unknown_tool_result name args)
  | Some fn => call_guarded fn args
  end.

(** The message of lines 125 to 133. *)
Definition tool_message (name : string) (tool_result : pyval) : message :=
  MContent (mkContent "tool"
              (Some [mkPart None None (Some (name, tool_result))])).

(** The [for part in parts] loop: the parts left, [called_any] and [resp]. *)
Fixpoint for_parts (ps : list part) (called_any : bool) (resp : response)
  : state -> outcome state (bool * response) :=
  match ps with
  | [] => ret (called_any, resp)
  | p :: ps' =>
      match part_function_call p with
      | None => for_parts ps' called_any resp
      | Some fc =>
          let name := fc_name fc in
          let args := default [] (fc_args fc) in
          (tool_result <- in_world (tool_result_of name args) ;;
           resp' <- in_chat (send_message (tool_message name tool_result)) ;;
           for_parts ps' true resp')%py
      end
  end.

(** The parts of the first candidate: [resp.candidates[0]], then
    [list(getattr(cand.content, "parts", []) or [])]. *)
Definition first_parts (resp : response) : state -> outcome state (list part) :=
  match candidates resp with
  | [] => raise (IndexError "list index out of range")
  | cand :: _ => ret (default [] (parts (cand_content cand)))
  end.

(** [_run_tools_if_any]: the [while True] loop, [fuel] rounds of it at most;
    [None] when the rounds are used up before the loop is left. *)
Fixpoint _run_tools_if_any (fuel : nat) (resp : response) (st : state)
  : option (outcome state response) :=
  match fuel with
  | O => None
  | S fuel' =>
      match first_parts resp st with
      | Raise e st' => Some (Raise e st')
      | Ret ps st' =>
          match for_parts ps false resp st' with
          | Raise e st'' => Some (Raise e st'')
          | Ret (called_any, resp') st'' =>
              if negb called_any then Some (Ret resp' st'')
              else _run_tools_if_any fuel' resp' st''
          end
      end
  end.

(** The text of the parts that have one, joined by line feeds. *)
Definition joined_text (ps : list part) : string :=
  String.concat (String "010" "") (omap part_text ps).

(** [ask] *)
Definition ask (fuel : nat) (user_text : string) (st : state)
  : option (outcome state string) :=
  match in_chat (send_message (MText user_text)) st with
  | Raise e st' => Some (Raise e st')
  | Ret resp st' =>
      match _run_tools_if_any fuel resp st' with
      | None => None
      | Some (Raise e st'') => Some (Raise e st'')
      | Some (Ret final st'') =>
          match text final with
          | Has t => Some (Ret t st'')
          | Fails e =>
              if isinstance e "Exception" then
                match candidates final with
                | [] => Some (Raise (IndexError "list index out of range") st'')
                | cand :: _ =>
                    match parts (cand_content cand) with
                    | Some ps => Some (Ret (joined_text ps) st'')
                    | None =>
                        Some (Raise (TypeError "'NoneType' object is not iterable") st'')
                    end
                end
              else Some (Raise e st'')
          end
      end
  end.

(** ** Vocabulary of the specification *)

(** The email has an [@]. *)
Definition has_at (s : string) : bool := existsb (Ascii.eqb "@") (chars s).

(** What follows the first [@]. *)
Fixpoint after_at (l : list ascii) : option (list ascii) :=
  match l with
  | [] => None
  | c :: l' => if Ascii.eqb c "@" then Some l' else after_at l'
  end.

(** The email has a [.] somewhere after an [@]. *)
Definition has_dot_after_at (s : string) : bool :=
  match after_at (chars s) with
  | Some rest => existsb (Ascii.eqb ".") rest
  | None => false
  end.

(** A run of one or more characters, none an [@] or a white space. *)
Definition word (l : list ascii) : Prop :=
  l ≠ [] ∧ forallb not_at_or_space l = true.

(** The shape [local@domain.tld] of the specification: a single [@], no
    white space, and a dot inside what follows the [@]. *)
Definition email_shape (s : string) : Prop :=
  ∃ loc dom tld : list ascii,
    word loc ∧ word dom ∧ word tld ∧
    chars s = (loc ++ "@"%char :: dom ++ "."%char :: tld)%list.

(** White space at the start, or at the end, of the string. *)
Definition leading_space (s : string) : bool :=
  match chars s with
  | c :: _ => isspace c
  | [] => false
  end.

Definition trailing_space (s : string) : bool :=
  match rev (chars s) with
  | c :: _ => isspace c
  | [] => false
  end.

(** The result and the event of a lead, and of a feedback. *)
Definition invalid_email_result (lead_id ts : string) : pyval :=
  VDict [("ok", VBool false); ("error", VStr "invalid_email");
         ("lead_id", VStr lead_id); ("ts", VStr ts)].

Definition lead_result (lead_id ts : string) : pyval :=
  VDict [("ok", VBool true); ("lead_id", VStr lead_id); ("ts", VStr ts)].

Definition lead_event (lead_id ts email name message : string) : pydict :=
  [("ts", VStr ts); ("event", VStr "lead_recorded"); ("lead_id", VStr lead_id);
   ("email", VStr email); ("name", VStr name); ("message", VStr message)].

Definition feedback_result (fb_id ts : string) : pyval :=
  VDict [("ok", VBool true); ("feedback_id", VStr fb_id); ("ts", VStr ts)].

Definition feedback_event (fb_id ts question : string) : pydict :=
  [("ts", VStr ts); ("event", VStr "feedback_recorded");
   ("feedback_id", VStr fb_id); ("question", VStr question)].

(** The identifier and the time stamp the next call will be given. *)
Definition next_uuid (w : world) : string := uuid_src w (uuid_draws w).
Definition next_ts (w : world) : string := clock w (clock_reads w).

(** The world after one identifier was drawn and the clock was read once,
    with [out] printed and the files as [fs]. *)
Definition after_call (w : world) (fs : gmap string (list pydict))
    (out : list printed) : world :=
  mkWorld (uuid_src w) (S (uuid_draws w)) (clock w) (S (clock_reads w))
          fs (stdout w ++ out).

(** A statement that, when it raises, raises an instance of [Exception]. *)
Definition raises_only_Exception {S A} (m : S -> outcome S A) : Prop :=
  ∀ s e s', m s = Raise e s' → isinstance e "Exception" = true.

(** The keyword arguments are exactly the parameters of the function. *)
Definition fits_signature (fn : pyfunc) (args : pydict) : bool :=
  forallb (fun k => mem k (fn_params fn)) (dict_keys args)
  && forallb (fun p => mem p (dict_keys args)) (fn_params fn).

(** The tool calls among parts, in the order of the parts. *)
Definition calls_of_parts (ps : list part) : list function_call :=
  omap part_function_call ps.

(** The parts the loop reads in a response, and the tool calls in them. *)
Definition response_parts (r : response) : list part :=
  match candidates r with
  | cand :: _ => default [] (parts (cand_content cand))
  | [] => []
  end.

Definition response_calls (r : response) : list function_call :=
  calls_of_parts (response_parts r).

(** Step 2 of the transition rules, for the tool calls of one response: each
    call in turn is given its result, the result is sent on its own as a
    tool message, and the answer to that message becomes the current
    response.  [serves remote calls w h resp w' h' resp'] takes the world,
    the history and the current response from before the first call to after
    the last. *)
Inductive serves (remote : list turn -> reply)
  : list function_call -> world -> list turn -> response ->
    world -> list turn -> response -> Prop :=
| serves_none w h resp :
    serves remote [] w h resp w h resp
| serves_call fc calls w h resp tool_result w1 answer w' h' resp' :
    tool_result_of (fc_name fc) (default [] (fc_args fc)) w
    = Ret tool_result w1 ->
    remote (h ++ [Sent (tool_message (fc_name fc) tool_result)])%list
    = Reply answer ->
    serves remote calls w1
           (h ++ [Sent (tool_message (fc_name fc) tool_result);
                  Received answer])%list answer w' h' resp' ->
    serves remote (fc :: calls) w h resp w' h' resp'.

(** The names of the tool calls a turn holds, and of the tool results. *)
Definition call_names (t : turn) : list string :=
  match t with
  | Received r => map fc_name (response_calls r)
  | Sent _ => []
  end.

Definition result_names (t : turn) : list string :=
  match t with
  | Sent (MContent c) =>
      map fst (omap part_function_response (default [] (parts c)))
  | _ => []
  end.

(** A result answers the oldest call of its name that is still waiting;
    [None] when no call of that name is waiting. *)
Fixpoint answer_one (n : string) (pending : list string) : option (list string) :=
  match pending with
  | [] => None
  | x :: pending' =>
      if String.eqb n x then Some pending'
      else cons x <$> answer_one n pending'
  end.

Fixpoint answer_all (ns : list string) (pending : list string)
  : option (list string) :=
  match ns with
  | [] => Some pending
  | n :: ns' =>
      match answer_one n pending with
      | Some pending' => answer_all ns' pending'
      | None => None
      end
  end.

(** The calls still waiting for a result after the turns [h], from the calls
    [pending] waiting before them; [None] when a result answers no call. *)
Fixpoint unanswered (pending : list string) (h : list turn)
  : option (list string) :=
  match h with
  | [] => Some pending
  | t :: h' =>
      match answer_all (result_names t) pending with
      | Some pending' => unanswered (pending' ++ call_names t)%list h'
      | None => None
      end
  end.

(** The invariant of the data model on the turns of one exchange: every tool
    call is followed by exactly one result of its name. *)
Definition exchange_complete (h : list turn) : bool :=
  match unanswered [] h with
  | Some [] => true
  | _ => false
  end.

(** ** Sample data *)

Definition LF : string := String "010" "".

(** A world in which nothing was logged yet. *)
Definition w0 : world :=
  mkWorld (fun n => "uuid-" ++ pretty n) 0
          (fun n => "2025-01-01T00:00:0" ++ pretty n ++ "+00:00") 0 ∅ [].

Definition text_part (s : string) : part := mkPart (Some s) None None.

(** A tool call as the SDK hands it over: its attribute [text] is there and
    is empty. *)
Definition call_part (name : string) (args : pydict) : part :=
  mkPart (Some "") (Some (mkCall name (Some args))) None.

Definition ValueError (msg : string) : exn :=
  mkExn ["ValueError"; "Exception"; "BaseException"; "object"] msg.

(** An answer of the model: one candidate with the parts [ps]; its
    consolidated text is that of its only part when this is a text, and is
    refused otherwise. *)
Definition model_says (ps : list part) : response :=
  mkResponse [mkCandidate (mkContent "model" (Some ps))]
    match ps with
    | [mkPart (Some t) None None] => Has t
    | _ => Fails (ValueError "the response holds parts that are no text")
    end.

(** A remote model that plays a script: its n-th answer is the n-th entry,
    whatever it is sent; after the last entry it has nothing more to say. *)
Definition received (h : list turn) : nat :=
  length (List.filter (fun t => match t with Received _ => true | _ => false end) h).

Definition scripted (script : list response) : list turn -> reply :=
  fun h => Reply (default (model_says [text_part ""]) (script !! received h)).

Definition jane_args : pydict :=
  [("email", VStr "a@b.com"); ("name", VStr "Jane");
   ("message", VStr "poetry chapbook edit")].

(** Arguments of the right names, with a number where the email goes. *)
Definition number_email_args : pydict :=
  [("email", VNum 7); ("name", VStr "Jane"); ("message", VStr "hi")].

(** One tool call, then a text. *)
Definition one_call_answer : response :=
  model_says [call_part "record_customer_interest" jane_args].

Definition thanks_answer : response :=
  model_says [text_part "Thank you Jane, we will be in touch."].

Definition script_one_call : list response := [one_call_answer; thanks_answer].

(** Two tool calls in the first answer; the answer to the first result asks
    for a tool again, the answer to the second result is a text. *)
Definition two_calls_answer : response :=
  model_says [call_part "record_feedback" [("question", VStr "Do you edit scripts?")];
              call_part "record_customer_interest" jane_args].

Definition script_two_calls : list response :=
  [two_calls_answer;
   model_says [call_part "record_feedback" [("question", VStr "What are the rates?")]];
   model_says [text_part "Both are noted."]].

(** A call of a tool the registry does not have, then a text. *)
Definition unknown_tool_call : function_call :=
  mkCall "send_invoice" (Some [("amount", VNum 100)]).

Definition unknown_tool_answer : response :=
  model_says [mkPart (Some "") (Some unknown_tool_call) None].

Definition script_unknown_tool : list response :=
  [unknown_tool_answer; model_says [text_part "I cannot send invoices."]].

(** A part that is no text (an image, say) as the SDK hands it over: its
    attribute [text] is there and is empty. *)
Definition blob_part : part := mkPart (Some "") None None.

(** An answer in two texts around a part that is no text. *)
Definition letter_answer : response :=
  model_says [text_part "Dear Jane,"; blob_part; text_part "see you soon."].

(** The session after [msg] was sent to a model that plays [script] and
    answered [r]. *)
Definition chat_after (script : list response) (msg : string) (r : response)
  : chat :=
  mkChat [Sent (MText msg); Received r] (scripted script).

(** ** More of [tools.py]: the function declarations *)

Record declaration : Type := mkDecl {
  decl_name : string;
  decl_description : string;
  decl_type : string;                                (* of "parameters" *)
  decl_properties : list (string * (string * string)); (* name, type, description *)
  decl_required : list string
}.

(** [get_function_declarations] *)
Definition get_function_declarations : list declaration :=
  [mkDecl "record_customer_interest"
     ("Use when the user wants services or follow-up. "
      ++ "Ask for missing fields first. Do NOT call if email/name/message are unknown.")
     "OBJECT"
     [("email", ("STRING", "Customer email address."));
      ("name", ("STRING", "Customer full name."));
      ("message", ("STRING", "Short note on project/needs/context."))]
     ["email"; "name"; "message"];
   mkDecl "record_feedback"
     ("Use when the question is not answered by the provided SUMMARY/PDF or confidence is low. "
      ++ "Do NOT guess. Pass the user's exact question.")
     "OBJECT"
     [("question", ("STRING", "The user question the bot failed to answer."))]
     ["question"]].

(** A call follows a declaration: its arguments are among the declared
    properties, every required one is there, and every value is a string, as
    the declared type [STRING] asks. *)
Definition is_str (v : pyval) : bool :=
  match v with VStr _ => true | _ => false end.

Definition conforms (d : declaration) (args : pydict) : bool :=
  forallb (fun k => mem k (map fst (decl_properties d))) (dict_keys args)
  && forallb (fun p => mem p (dict_keys args)) (decl_required d)
  && forallb (fun kv => is_str (snd kv)) args.

(** ** More vocabulary *)

(** The string that [(v or "")] is, when it is one: [v] itself, or the empty
    string in place of a value that counts as false. *)
Definition or_empty (v : pyval) : option string :=
  match py_or v (VStr "") with
  | VStr s => Some s
  | _ => None
  end.

(** No white space at the start nor at the end. *)
Definition trimmed (s : string) : Prop :=
  leading_space s = false ∧ trailing_space s = false.

(** The white space that trimming removes, among the characters below 256:
    TAB, LF, VT, FF and CR, FS, GS, RS and US, SPACE, NEL and NBSP. *)
Definition white_space : list ascii :=
  map ascii_of_nat [9; 10; 11; 12; 13; 28; 29; 30; 31; 32; 133; 160]%nat.

(** [t] is [s] without the white space at its two ends: [s] is [t] between
    two runs of white space, and [t] neither starts nor ends with one. *)
Definition stripped_of (s t : string) : Prop :=
  ∃ before after : list ascii,
    chars s = (before ++ chars t ++ after)%list
    ∧ Forall (fun c => c ∈ white_space) before
    ∧ Forall (fun c => c ∈ white_space) after
    ∧ (∀ c l, chars t = c :: l → c ∉ white_space)
    ∧ (∀ c l, chars t = (l ++ [c])%list → c ∉ white_space).

(** The texts of the plain-text parts, as the specification reads them: the
    parts that carry a text.  A part whose text is empty carries none. *)
Definition plain_texts (ps : list part) : list string :=
  List.filter (fun t => negb (String.eqb t "")) (omap part_text ps).

(** Steps 2a to 2c of the transition rules for one tool call: the name is
    looked up in the registry; a name that is not there gives the
    [unknown_tool] result and changes nothing; a handler that is there is
    called with the arguments as keywords, and what it returns is the
    result, while what it raises becomes a [bad_arguments] or a [runtime]
    result.  The world is the one the handler leaves. *)
Definition executed (name : string) (args : pydict) (w : world)
    (tool_result : pyval) (w1 : world) : Prop :=
  match TOOLS_MAP !! name with
  | None =>
      tool_result = VDict [("ok", VBool false);
                           ("error", VStr ("unknown_tool:" ++ name));
                           ("received_args", VDict args)]
      ∧ w1 = w
  | Some fn =>
      match call_kwargs fn args w with
      | Ret r w' => tool_result = r ∧ w1 = w'
      | Raise e w' =>
          w1 = w' ∧ isinstance e "Exception" = true
          ∧ tool_result
            = if isinstance e "TypeError"
              then VDict [("ok", VBool false);
                          ("error", VStr ("bad_arguments:" ++ exn_str e));
                          ("received_args", VDict args)]
              else VDict [("ok", VBool false);
                          ("error", VStr ("runtime:" ++ class_name e ++ ":"
                                          ++ exn_str e))]
      end
  end.

(** Step 2 of the transition rules for the tool calls of one response, in
    their order: each call is executed, its result is sent at once and alone
    in a message of the role [tool] whose one part is a function response
    with the name of the tool and the result, and the answer to that message
    is the current response from then on. *)
Inductive answered_in_turn (remote : list turn -> reply)
  : list function_call -> world -> list turn -> response ->
    world -> list turn -> response -> Prop :=
| answered_none w h resp :
    answered_in_turn remote [] w h resp w h resp
| answered_call fc calls w h resp tool_result w1 answer w' h' resp' :
    executed (fc_name fc) (default [] (fc_args fc)) w tool_result w1 ->
    remote (h ++ [Sent (MContent
                          {| role := "tool";
                             parts := Some [{| part_text := None;
                                               part_function_call := None;
                                               part_function_response :=
                                                 Some (fc_name fc, tool_result) |}] |})])%list
    = Reply answer ->
    answered_in_turn remote calls w1
      (h ++ [Sent (MContent
                     {| role := "tool";
                        parts := Some [{| part_text := None;
                                          part_function_call := None;
                                          part_function_response :=
                                            Some (fc_name fc, tool_result) |}] |});
             Received answer])%list answer w' h' resp' ->
    answered_in_turn remote (fc :: calls) w h resp w' h' resp'.

(** The result of a failure: [ok] is false and there is an error text. *)
Definition failure_result (r : pyval) : Prop :=
  ∃ d msg, r = VDict d ∧ dict_get d "ok" = Some (VBool false)
           ∧ dict_get d "error" = Some (VStr msg).

(** The result of a success: [ok] is true and there is no error. *)
Definition success_result (r : pyval) : Prop :=
  ∃ d, r = VDict d ∧ dict_get d "ok" = Some (VBool true)
       ∧ dict_get d "error" = None.

(** The world has only moved on: the sources of identifiers and of time are
    the same and no draw or reading was given back, every file of the log
    directory starts with the lines it had, files other than the two logs
    are as they were, and what was printed is still there. *)
Definition world_le (w w' : world) : Prop :=
  uuid_src w' = uuid_src w ∧ clock w' = clock w
  ∧ (uuid_draws w ≤ uuid_draws w')%nat ∧ (clock_reads w ≤ clock_reads w')%nat
  ∧ (∀ path, read_log path w `prefix_of` read_log path w')
  ∧ (∀ path, path ≠ "leads.jsonl" → path ≠ "feedback.jsonl" →
             files w' !! path = files w !! path)
  ∧ stdout w `prefix_of` stdout w'.

(** The same for an exchange: the history has only grown and the model is
    the same. *)
Definition state_le (st st' : state) : Prop :=
  history (fst st) `prefix_of` history (fst st')
  ∧ remote (fst st') = remote (fst st)
  ∧ world_le (snd st) (snd st').

(** Where a statement ends, whether it returns or raises. *)
Definition final_state {S A} (o : outcome S A) : S :=
  match o with
  | Ret _ s => s
  | Raise _ s => s
  end.

(** ** More of [app.py]: the chat window and the command line *)

Section Window.

(** The dash of the apology is U+2014, a character outside the range of
    [ascii]: the text that stands for it is left open. *)
Variable dash : string.

Definition apology (e : exn) : string :=
  "Sorry" ++ dash ++ "something went wrong: " ++ exn_str e.

Definition user_entry (message : string) : pydict :=
  [("role", VStr "user"); ("content", VStr message)].

Definition assistant_entry (reply : string) : pydict :=
  [("role", VStr "assistant"); ("content", VStr reply)].

(** [on_send] of [build_ui]; [window] is the history the window shows,
    [None] for the value [None]. *)
Definition on_send (fuel : nat) (message : string)
    (window : option (list pydict)) (st : state)
  : option (outcome state (list pydict * string)) :=
  let finish reply st' :=
    Some (Ret ((default [] window
                ++ [user_entry message; assistant_entry reply])%list, "") st') in
  match ask fuel message st with
  | None => None
  | Some (Ret reply st') => finish reply st'
  | Some (Raise e st') =>
      if isinstance e "Exception" then finish (apology e) st'
      else Some (Raise e st')
  end.

End Window.

(** [str.lower] on one character: the capital letters of ASCII and of
    Latin-1 (U+00D7, the multiplication sign, is none) move 32 up. *)
Definition lower_char (c : ascii) : ascii :=
  let n := nat_of_ascii c in
  if ((65 <=? n)%nat && (n <=? 90)%nat)
     || ((192 <=? n)%nat && (n <=? 222)%nat && negb (n =? 215)%nat)
  then ascii_of_nat (n + 32) else c.

(** [s.lower()] *)
Definition lower (s : string) : string := of_chars (map lower_char (chars s)).

(** [not text or text.lower() in {"exit", "quit"}] *)
Definition is_stop (text : string) : bool :=
  String.eqb text ""
  || String.eqb (lower text) "exit" || String.eqb (lower text) "quit".

(** [run_cli]: [lines] are the lines standard input still holds; a read after
    the last one is the end of file.  [out] are the lines printed by
    [run_cli] itself, the banner first.  Each [ask] may run [fuel] rounds of
    the loop. *)
Fixpoint cli_loop (fuel : nat) (lines : list string) (out : list string)
    (st : state) : option (outcome (state * list string) unit) :=
  match lines with
  | [] => Some (Ret tt (st, out))
  | line :: lines' =>
      let text := strip line in
      if is_stop text then Some (Ret tt (st, out))
      else
        match ask fuel text st with
        | None => None
        | Some (Raise e st') => Some (Raise e (st', out))
        | Some (Ret reply st') => cli_loop fuel lines' (out ++ [reply])%list st'
        end
  end.

Definition run_cli (fuel : nat) (lines : list string) (st : state)
  : option (outcome (state * list string) unit) :=
  cli_loop fuel lines ["Type your message (or 'exit'): "] st.

(** The texts of the user among the turns, in their order. *)
Definition user_texts (h : list turn) : list string :=
  omap (fun t => match t with Sent (MText s) => Some s | _ => None end) h.

(** ** More of [app.py]: the business knowledge *)

(** A page of a PDF: what [extract_text()] returns ([None] at times) or
    raises.  A PDF: [None] when the path does not exist, else what
    [PdfReader] gives, an error or a reader.  Of a reader, what going
    through [reader.pages] gives: the pages it hands over and, when it fails
    (at once or after some pages), the error it raises then. *)
Definition pdf_page : Type := property (option string).
Definition pdf_source : Type :=
  option (property (list pdf_page * option exn)).

(** The body of the [for page in reader.pages] loop on the pages handed
    over: the text of each page, the empty string for a page without text or
    whose extraction fails. *)
Fixpoint page_texts (pages : list pdf_page) : property (list string) :=
  match pages with
  | [] => Has []
  | page :: pages' =>
      let continue t :=
        match page_texts pages' with
        | Has ts => Has (t :: ts)
        | Fails e => Fails e
        end in
      match page with
      | Has (Some t) => continue t
      | Has None => continue ""
      | Fails e => if isinstance e "Exception" then continue "" else Fails e
      end
  end.

(** A page that gives no text: [None], the empty string, or an
    [Exception]. *)
Definition no_text (page : pdf_page) : Prop :=
  match page with
  | Has (Some t) => t = ""
  | Has None => True
  | Fails e => isinstance e "Exception" = true
  end.

(** A page whose extraction raises nothing, or an [Exception], which the
    [try] around it catches. *)
Definition quiet_page (page : pdf_page) : Prop :=
  match page with
  | Has _ => True
  | Fails e => isinstance e "Exception" = true
  end.

(** [read_pdf_text] *)
Definition read_pdf_text (src : pdf_source) : property string :=
  match src with
  | None => Has ""
  | Some (Fails e) => if isinstance e "Exception" then Has "" else Fails e
  | Some (Has (pages, failure)) =>
      match page_texts pages with
      | Has ts =>
          match failure with
          | None => Has (strip (String.concat LF ts))
          | Some e => Fails e   (* raised by the [for], outside both [try] *)
          end
      | Fails e => Fails e
      end
  end.

Definition MAX_CHARS : nat := 60 * 1000.

(** Lines 56 to 59: the text is cut after [n] characters and marked. *)
Definition truncated (n : nat) (pdf_text : string) : string :=
  if (n <? String.length pdf_text)%nat
  then substring 0 n pdf_text ++ LF ++ "[...truncated...]"
  else pdf_text.

Inductive warning : Type :=
| Missing_summary
| Pdf_empty.

(** [load_business_knowledge]: [summary_file] is [None] when the summary
    does not exist, else what reading it gives; the result comes with the
    warnings printed on the way. *)
Definition load_business_knowledge
    (summary_file : option (property string)) (pdf : pdf_source)
  : list warning * property (string * string) :=
  let after_summary (summary : string) (warned : list warning) :=
    match read_pdf_text pdf with
    | Fails e => (warned, Fails e)
    | Has pdf_text =>
        ((warned ++ (if String.eqb pdf_text "" then [Pdf_empty] else []))%list,
         Has (summary, truncated MAX_CHARS pdf_text))
    end in
  match summary_file with
  | Some (Has summary) => after_summary summary []
  | Some (Fails e) => ([], Fails e)
  | None => after_summary "" [Missing_summary]
  end.

(** ** More sample data *)

Definition ConnectionError (msg : string) : exn :=
  mkExn ["ConnectionError"; "OSError"; "Exception"; "BaseException"; "object"] msg.

(** A model that asks for the same tool call whatever it is sent. *)
Definition always_calls : list turn -> reply := fun _ => Reply one_call_answer.

(** A model that plays a script and whose connection is down afterwards. *)
Definition scripted_then_down (script : list response) : list turn -> reply :=
  fun h =>
    match script !! received h with
    | Some r => Reply r
    | None => TransportError (ConnectionError "connection lost")
    end.

(** An answer that holds no candidate. *)
Definition blocked_answer : response :=
  mkResponse [] (Fails (ValueError "the response holds no candidate")).

(** The texts [run_cli] passes to [ask] from the lines it is given: each
    line stripped, up to the first one that stops the loop. *)
Fixpoint texts_read (lines : list string) : list string :=
  match lines with
  | [] => []
  | line :: lines' =>
      if is_stop (strip line) then [] else strip line :: texts_read lines'
  end.

(** * Properties *)

(** ** The pattern of an email *)

Section EmailPattern.

Lemma plus_then_true p k s :
  plus_then p k s = true ↔
  ∃ u v, s = (u ++ v)%list ∧ u ≠ [] ∧ forallb p u = true ∧ k v = true.
Proof.
  split.
  - induction s as [|c s IH]; simpl; [done|].
    intros [Hc H]%andb_prop. apply orb_prop in H as [H|H].
    + destruct (IH H) as (u & v & -> & Hu & Hp & Hk).
      exists (c :: u), v. simpl. rewrite Hc, Hp. done.
    + exists [c], s. simpl. rewrite Hc. done.
  - intros (u & v & -> & Hu & Hp & Hk).
    induction u as [|c u IH]; [done|]. simpl in *.
    apply andb_prop in Hp as [Hc Hp]. rewrite Hc. simpl.
    destruct u as [|c' u].
    + simpl. rewrite Hk. apply orb_true_r.
    + rewrite IH; done.
Qed.

Lemma at_eol_true s : at_eol s = true ↔ s = [] ∨ s = ["010"%char].
Proof.
  destruct s as [|c [|c' s]]; cbn [at_eol].
  - split; auto.
  - rewrite Ascii.eqb_eq. split; [intros ->; by right | by intros [?|[= ->]]].
  - split; [done | by intros [?|?]].
Qed.

Lemma EMAIL_RE_matches s :
  re_match EMAIL_RE s = true ↔
  ∃ loc dom tld tail,
    word loc ∧ word dom ∧ word tld ∧ (tail = [] ∨ tail = ["010"%char]) ∧
    chars s = (loc ++ "@"%char :: dom ++ "."%char :: tld ++ tail)%list.
Proof.
  unfold re_match, EMAIL_RE, word. cbn [re_match_at andb].
  rewrite plus_then_true. split.
  - intros (loc & v & Hs & Hloc & Hploc & Hk).
    destruct v as [|c v]; [done|].
    apply andb_prop in Hk as [->%Ascii.eqb_eq Hk].
    apply plus_then_true in Hk as (dom & v' & -> & Hdom & Hpdom & Hk).
    destruct v' as [|c2 v']; [done|].
    apply andb_prop in Hk as [->%Ascii.eqb_eq Hk].
    apply plus_then_true in Hk as (tld & tail & -> & Htld & Hptld & Hk).
    rewrite andb_true_r in Hk. apply at_eol_true in Hk.
    exists loc, dom, tld, tail. done.
  - intros (loc & dom & tld & tail & [? ?] & [? ?] & [? ?] & Htail & Hs).
    exists loc, ("@"%char :: dom ++ "."%char :: tld ++ tail)%list.
    split_and!; try done. rewrite Ascii.eqb_refl. cbn [andb].
    apply plus_then_true. exists dom, ("."%char :: tld ++ tail)%list.
    split_and!; try done. rewrite Ascii.eqb_refl. cbn [andb].
    apply plus_then_true. exists tld, tail. split_and!; try done.
    rewrite andb_true_r. by apply at_eol_true.
Qed.

Lemma after_at_app l r :
  forallb not_at_or_space l = true → after_at (l ++ "@"%char :: r) = Some r.
Proof.
  induction l as [|c l IH]; [done|]. cbn [forallb app after_at].
  intros [Hc Hl]%andb_prop. unfold not_at_or_space in Hc.
  apply andb_prop in Hc as [Hc _]. apply negb_true_iff in Hc. rewrite Hc. auto.
Qed.

Lemma EMAIL_RE_needs_dot_after_at s :
  re_match EMAIL_RE s = true → has_at s = true ∧ has_dot_after_at s = true.
Proof.
  intros (loc & dom & tld & tail & [_ Hloc] & _ & _ & _ & Hs)%EMAIL_RE_matches.
  unfold has_at, has_dot_after_at. rewrite Hs. split.
  - rewrite existsb_app. cbn [existsb]. rewrite Ascii.eqb_refl.
    rewrite orb_true_r. done.
  - rewrite after_at_app by done. rewrite existsb_app. cbn [existsb].
    rewrite Ascii.eqb_refl. rewrite orb_true_r. done.
Qed.

Lemma email_shape_matches s : email_shape s → re_match EMAIL_RE s = true.
Proof.
  intros (loc & dom & tld & ? & ? & ? & Hs). apply EMAIL_RE_matches.
  exists loc, dom, tld, []. rewrite app_nil_r. split_and!; auto.
Qed.

Lemma chars_app a b : chars (a ++ b) = (chars a ++ chars b)%list.
Proof.
  unfold chars. induction a as [|c a IH]; [done|].
  change (c :: list_ascii_of_string (a ++ b)
          = c :: (list_ascii_of_string a ++ list_ascii_of_string b)%list).
  by f_equal.
Qed.

Lemma word_no_space l c : word l → c ∈ l → isspace c = false.
Proof.
  intros [_ H] Hin. rewrite forallb_forall in H.
  apply list_elem_of_In, H in Hin. unfold not_at_or_space in Hin.
  apply andb_prop in Hin as [_ Hin]. by apply negb_true_iff.
Qed.

(** An email with a white space at its start or at its end matches only as
    an address of the right shape followed by one line feed. *)
Lemma space_around_email_matches email :
  leading_space email = true ∨ trailing_space email = true →
  re_match EMAIL_RE email = true →
  ∃ addr, email_shape addr ∧ email = addr ++ LF.
Proof.
  intros Hsp (loc & dom & tld & tail & Hloc & Hdom & Htld & Htail & Hs)%EMAIL_RE_matches.
  assert (tail = ["010"%char]) as ->.
  { destruct Htail as [->| ->]; [|done]. exfalso.
    unfold leading_space, trailing_space in Hsp. rewrite Hs in Hsp.
    destruct Hsp as [Hsp|Hsp].
    - destruct loc as [|c loc]; [by destruct Hloc|]. cbn in Hsp.
      rewrite (word_no_space (c :: loc) c) in Hsp; [done|done|by left].
    - rewrite app_nil_r in Hsp.
      destruct tld as [|c tld _] using rev_ind; [by destruct Htld|].
      replace (loc ++ "@"%char :: dom ++ "."%char :: tld ++ [c])%list
        with ((loc ++ "@"%char :: dom ++ "."%char :: tld) ++ [c])%list in Hsp
        by (by rewrite <- !app_assoc, <- !app_comm_cons, <- !app_assoc).
      rewrite rev_unit in Hsp.
      rewrite (word_no_space (tld ++ [c]) c) in Hsp; [done|done|].
      apply elem_of_app. right. by left. }
  exists (of_chars (loc ++ "@"%char :: dom ++ "."%char :: tld)). split.
  - exists loc, dom, tld. split_and!; try done.
    unfold chars, of_chars. by rewrite list_ascii_of_string_of_list_ascii.
  - rewrite <- (string_of_list_ascii_of_string email).
    fold (chars email). rewrite Hs.
    rewrite <- (string_of_list_ascii_of_string (_ ++ LF)).
    fold (chars (of_chars (loc ++ "@"%char :: dom ++ "."%char :: tld) ++ LF)).
    rewrite chars_app. unfold chars at 1, of_chars.
    rewrite list_ascii_of_string_of_list_ascii. f_equal.
    by rewrite <- !app_assoc, <- !app_comm_cons, <- !app_assoc.
Qed.

End EmailPattern.

(** ** Stripping *)

Section Strip.

Lemma lstrip_head l : match lstrip l with c :: _ => isspace c = false | [] => True end.
Proof.
  induction l as [|c l IH]; [done|]. cbn [lstrip].
  destruct (isspace c) eqn:E; [exact IH|exact E].
Qed.

Lemma lstrip_suffix l : lstrip l `suffix_of` l.
Proof.
  induction l as [|c l IH]; [done|]. cbn [lstrip].
  destruct (isspace c); [by apply suffix_cons_r|done].
Qed.

Lemma lstrip_id l :
  match l with c :: _ => isspace c = false | [] => True end → lstrip l = l.
Proof. destruct l as [|c l]; [done|]. cbn [lstrip]. by intros ->. Qed.

Lemma chars_of_chars l : chars (of_chars l) = l.
Proof. apply list_ascii_of_string_of_list_ascii. Qed.

Lemma of_chars_chars s : of_chars (chars s) = s.
Proof. apply string_of_list_ascii_of_string. Qed.

Lemma chars_strip s : chars (strip s) = strip_chars (chars s).
Proof. apply chars_of_chars. Qed.

(** What [strip] returns has no white space at its start nor at its end. *)
Lemma strip_trimmed s : trimmed (strip s).
Proof.
  unfold trimmed, leading_space, trailing_space. rewrite chars_strip.
  unfold strip_chars. rewrite rev_involutive.
  pose proof (lstrip_head (rev (lstrip (chars s)))) as Hlast.
  pose proof (lstrip_suffix (rev (lstrip (chars s)))) as [k Hk].
  pose proof (lstrip_head (chars s)) as Hfirst.
  destruct (lstrip (rev (lstrip (chars s)))) as [|c b] eqn:Hb; [done|].
  split; [|done].
  destruct (rev (c :: b)) as [|c0 r] eqn:Hr.
  { apply (f_equal (@length _)) in Hr. rewrite length_rev in Hr. done. }
  apply (f_equal (@rev _)) in Hk. rewrite rev_involutive, rev_app_distr, Hr in Hk.
  rewrite Hk in Hfirst. exact Hfirst.
Qed.

Lemma strip_chars_id l :
  match l with c :: _ => isspace c = false | [] => True end →
  match rev l with c :: _ => isspace c = false | [] => True end →
  strip_chars l = l.
Proof.
  intros H1 H2. unfold strip_chars.
  rewrite (lstrip_id l) by done. rewrite (lstrip_id (rev l)) by done.
  apply rev_involutive.
Qed.

(** A string that has no white space at either end is left as it is. *)
Lemma strip_id s : trimmed s → strip s = s.
Proof.
  unfold trimmed, leading_space, trailing_space, strip. intros [H1 H2].
  rewrite strip_chars_id; [apply of_chars_chars| |].
  - by destruct (chars s).
  - by destruct (rev (chars s)).
Qed.

Lemma strip_idempotent s : strip (strip s) = strip s.
Proof. apply strip_id, strip_trimmed. Qed.

Lemma lstrip_split l :
  ∃ before, l = (before ++ lstrip l)%list ∧ forallb isspace before = true.
Proof.
  induction l as [|c l (before & Hl & Hb)]; [by exists []|]. cbn [lstrip].
  destruct (isspace c) eqn:E; [|by exists []].
  exists (c :: before). cbn [forallb app]. rewrite E, Hb. split; [|done].
  by rewrite <- Hl.
Qed.

Lemma forallb_rev {A} (f : A → bool) (l : list A) :
  forallb f l = true → forallb f (rev l) = true.
Proof.
  rewrite !forallb_forall. intros H x Hx. apply H. by apply in_rev.
Qed.

(** [isspace] holds of the white space characters, and of no other. *)
Lemma isspace_white_space c : isspace c = true ↔ c ∈ white_space.
Proof.
  assert (isspace c = bool_decide (c ∈ white_space)) as ->
    by (by destruct c as [[] [] [] [] [] [] [] []]; vm_compute).
  apply bool_decide_eq_true.
Qed.

Lemma forallb_isspace l :
  forallb isspace l = true → Forall (fun c => c ∈ white_space) l.
Proof.
  induction l as [|c l IH]; [constructor|]. cbn [forallb].
  intros [Hc Hl]%andb_prop. constructor; [by apply isspace_white_space|auto].
Qed.

Lemma trimmed_ends t :
  trimmed t →
  (∀ c l, chars t = c :: l → c ∉ white_space)
  ∧ (∀ c l, chars t = (l ++ [c])%list → c ∉ white_space).
Proof.
  unfold trimmed, leading_space, trailing_space. intros [H1 H2]. split.
  - intros c l Ht Hc. rewrite Ht in H1.
    apply isspace_white_space in Hc. congruence.
  - intros c l Ht Hc. rewrite Ht, rev_unit in H2.
    apply isspace_white_space in Hc. congruence.
Qed.

(** What [strip] returns is its argument without the white space at its
    two ends. *)
Lemma strip_stripped_of s : stripped_of s (strip s).
Proof.
  destruct (trimmed_ends _ (strip_trimmed s)) as [Hfirst Hlast].
  destruct (lstrip_split (chars s)) as (before & Hl & Hb).
  destruct (lstrip_split (rev (lstrip (chars s)))) as (q & Hr & Hq).
  exists before, (rev q).
  split_and!; [|by apply forallb_isspace
               |by apply forallb_isspace, forallb_rev|done|done].
  rewrite chars_strip.
  transitivity (before ++ lstrip (chars s))%list; [exact Hl|]. f_equal.
  unfold strip_chars. apply (f_equal (@rev _)) in Hr.
  by rewrite rev_involutive, rev_app_distr in Hr.
Qed.

Lemma trimmed_stripped_of s : trimmed s → stripped_of s s.
Proof.
  intros [Hfirst Hlast]%trimmed_ends. exists [], [].
  split_and!; [by rewrite app_nil_r|constructor|constructor|done|done].
Qed.

Lemma stripped_of_empty t : stripped_of "" t → t = "".
Proof.
  intros (before & after & H & _). change (chars "") with (@nil ascii) in H.
  symmetry in H. apply app_eq_nil in H as [_ H]. apply app_eq_nil in H as [H _].
  rewrite <- (of_chars_chars t), H. reflexivity.
Qed.

Lemma strip_empty : strip "" = "".
Proof. reflexivity. Qed.

Lemma word_trimmed_chars l :
  word l →
  match l with c :: _ => isspace c = false | [] => True end
  ∧ match rev l with c :: _ => isspace c = false | [] => True end.
Proof.
  intros Hw. split.
  - destruct l as [|c l]; [done|]. apply (word_no_space _ c Hw). by left.
  - destruct (rev l) as [|c r] eqn:Hr; [done|].
    apply (word_no_space _ c Hw). apply elem_of_reverse.
    unfold reverse. rewrite <- rev_alt, Hr. by left.
Qed.

(** An address of the right shape has no white space in it, so stripping
    leaves it as it is. *)
Lemma email_shape_trimmed s : email_shape s → trimmed s.
Proof.
  intros (loc & dom & tld & Hloc & Hdom & Htld & Hs).
  unfold trimmed, leading_space, trailing_space. rewrite Hs. split.
  - destruct loc as [|c loc]; [by destruct Hloc|]. cbn.
    apply (word_no_space _ c Hloc). by left.
  - destruct tld as [|c tld _] using rev_ind; [by destruct Htld|].
    replace (loc ++ "@"%char :: dom ++ "."%char :: tld ++ [c])%list
      with ((loc ++ "@"%char :: dom ++ "."%char :: tld) ++ [c])%list
      by (by rewrite <- !app_assoc, <- !app_comm_cons, <- !app_assoc).
    rewrite rev_unit. apply (word_no_space _ c Htld).
    apply elem_of_app. right. by left.
Qed.

(** The email that passes [EMAIL_RE] has, once stripped, the shape
    [local@domain.tld]. *)
Lemma matched_email_stripped_has_shape s :
  re_match EMAIL_RE s = true → email_shape (strip s).
Proof.
  intros H. destruct (leading_space s || trailing_space s) eqn:Hsp.
  - apply orb_prop in Hsp.
    assert (leading_space s = true ∨ trailing_space s = true) as Hsp' by tauto.
    destruct (space_around_email_matches s Hsp' H) as (addr & Hshape & ->).
    replace (strip (addr ++ LF)) with addr; [done|].
    pose proof (email_shape_trimmed addr Hshape) as [Hl Ht].
    unfold strip. rewrite chars_app. unfold strip_chars.
    unfold leading_space in Hl. unfold trailing_space in Ht.
    assert (chars addr ≠ []) as Hne.
    { destruct Hshape as (loc & ? & ? & ? & ? & ? & ->). by destruct loc. }
    rewrite (lstrip_id (chars addr ++ chars LF)).
    2:{ destruct (chars addr); [done|]. exact Hl. }
    change (chars LF) with ["010"%char]. rewrite rev_unit. cbn [lstrip].
    change (isspace "010") with true. cbn match.
    rewrite (lstrip_id (rev (chars addr))).
    2:{ destruct (rev (chars addr)); [done|]. exact Ht. }
    rewrite rev_involutive. symmetry. apply of_chars_chars.
  - apply orb_false_elim in Hsp as [Hl Ht].
    rewrite (strip_id s) by done.
    apply EMAIL_RE_matches in H
      as (loc & dom & tld & tail & Hloc & Hdom & Htld & Htail & Hs).
    destruct Htail as [->| ->].
    + exists loc, dom, tld. by rewrite app_nil_r in Hs.
    + exfalso. unfold trailing_space in Ht. rewrite Hs in Ht.
      replace (loc ++ "@"%char :: dom ++ "."%char :: tld ++ ["010"%char])%list
        with ((loc ++ "@"%char :: dom ++ "."%char :: tld) ++ ["010"%char])%list
        in Ht by (by rewrite <- !app_assoc, <- !app_comm_cons, <- !app_assoc).
      rewrite rev_unit in Ht. done.
Qed.

End Strip.

(** ** The handlers *)

Section Handlers.

Lemma py_or_str s : py_or (VStr s) (VStr "") = VStr s.
Proof.
  unfold py_or, truthy. destruct (String.eqb s "") eqn:E; [|done].
  apply String.eqb_eq in E. by subst.
Qed.

Lemma read_log_insert path obj w fs out :
  fs = <[path := (read_log path w ++ [obj])%list]> (files w) →
  read_log path (after_call w fs out) = (read_log path w ++ [obj])%list.
Proof. intros ->. unfold read_log at 1. cbn. by rewrite lookup_insert_eq. Qed.

Lemma record_customer_interest_invalid email name message w :
  re_match EMAIL_RE email = false →
  record_customer_interest (VStr email) name message w
  = Ret (invalid_email_result (next_uuid w) (next_ts w))
        (after_call w (files w)
           [P_lead_invalid (next_ts w) (next_uuid w) (VStr email)]).
Proof.
  intros H. unfold record_customer_interest, bind. cbn -[re_match strip preview_of].
  rewrite py_or_str. cbn -[re_match strip preview_of]. rewrite H. reflexivity.
Qed.

Lemma record_customer_interest_valid email name message w :
  re_match EMAIL_RE email = true →
  record_customer_interest (VStr email) (VStr name) (VStr message) w
  = Ret (lead_result (next_uuid w) (next_ts w))
        (after_call w
           (<["leads.jsonl" :=
                (read_log "leads.jsonl" w
                 ++ [lead_event (next_uuid w) (next_ts w) (strip email)
                                (strip name) (strip message)])%list]> (files w))
           [P_lead (next_ts w) (next_uuid w) (VStr email) (strip name)
                   (preview_of 120 (strip message))]).
Proof.
  intros H. unfold record_customer_interest, bind. cbn -[re_match strip preview_of].
  rewrite !py_or_str. cbn -[re_match strip preview_of]. rewrite H. reflexivity.
Qed.

(** C3. An email without an [@], or without a [.] after the [@], is refused:
    the result is [ok: false], [error: "invalid_email"] with the identifier
    and the time stamp of the call, one diagnostic line is printed and no file
    of the log directory changes.  A second call with the same email is
    refused in the same way, with an identifier and a time stamp of its own,
    and the files are still those of the start. *)
Theorem C3_invalid_email_is_rejected
    (email : string) (name message : pyval) (w : world) :
  has_at email = false ∨ has_dot_after_at email = false →
  ∃ w1 w2 : world,
    record_customer_interest (VStr email) name message w
    = Ret (VDict [("ok", VBool false); ("error", VStr "invalid_email");
                  ("lead_id", VStr (uuid_src w (uuid_draws w)));
                  ("ts", VStr (clock w (clock_reads w)))]) w1
    ∧ files w1 = files w
    ∧ read_log "leads.jsonl" w1 = read_log "leads.jsonl" w
    ∧ stdout w1 = (stdout w ++ [P_lead_invalid (next_ts w) (next_uuid w)
                                               (VStr email)])%list
    ∧ record_customer_interest (VStr email) name message w1
      = Ret (VDict [("ok", VBool false); ("error", VStr "invalid_email");
                    ("lead_id", VStr (uuid_src w (S (uuid_draws w))));
                    ("ts", VStr (clock w (S (clock_reads w))))]) w2
    ∧ files w2 = files w
    ∧ read_log "leads.jsonl" w2 = read_log "leads.jsonl" w.
Proof.
  intros H.
  assert (re_match EMAIL_RE email = false) as Hno.
  { destruct (re_match EMAIL_RE email) eqn:E; [|done].
    apply EMAIL_RE_needs_dot_after_at in E as [? ?].
    destruct H; congruence. }
  eexists _, _. split_and!.
  - by apply record_customer_interest_invalid.
  - done.
  - done.
  - done.
  - rewrite record_customer_interest_invalid by done. reflexivity.
  - done.
  - done.
Qed.

(** C3 on an email without an [@], in the sample world. *)
Lemma C3_witness :
  (has_at "jane.example.org" = false ∨ has_dot_after_at "jane.example.org" = false)
  ∧ ∃ w1 w2 : world,
    record_customer_interest (VStr "jane.example.org") (VStr "Jane") VNone w0
    = Ret (VDict [("ok", VBool false); ("error", VStr "invalid_email");
                  ("lead_id", VStr (uuid_src w0 (uuid_draws w0)));
                  ("ts", VStr (clock w0 (clock_reads w0)))]) w1
    ∧ files w1 = files w0
    ∧ read_log "leads.jsonl" w1 = read_log "leads.jsonl" w0
    ∧ stdout w1 = (stdout w0 ++ [P_lead_invalid (next_ts w0) (next_uuid w0)
                                               (VStr "jane.example.org")])%list
    ∧ record_customer_interest (VStr "jane.example.org") (VStr "Jane") VNone w1
      = Ret (VDict [("ok", VBool false); ("error", VStr "invalid_email");
                    ("lead_id", VStr (uuid_src w0 (S (uuid_draws w0))));
                    ("ts", VStr (clock w0 (S (clock_reads w0))))]) w2
    ∧ files w2 = files w0
    ∧ read_log "leads.jsonl" w2 = read_log "leads.jsonl" w0.
Proof.
  split; [left; reflexivity|].
  apply (C3_invalid_email_is_rejected "jane.example.org" (VStr "Jane") VNone w0).
  left; reflexivity.
Defined.

(** C4. An email of the shape [local@domain.tld] is accepted: the call draws
    one new identifier and reads the clock once, appends to [leads.jsonl]
    exactly one event that carries them with the email, the name and the
    message, each without the white space at its two ends (of which the
    email has none), leaves every other file as it was, and returns
    [ok: true] with the identifier and the time stamp. *)
Theorem C4_valid_email_is_recorded (email name message : string) (w : world) :
  email_shape email →
  ∃ (w' : world) (n m : string),
    record_customer_interest (VStr email) (VStr name) (VStr message) w
    = Ret (VDict [("ok", VBool true);
                  ("lead_id", VStr (uuid_src w (uuid_draws w)));
                  ("ts", VStr (clock w (clock_reads w)))]) w'
    ∧ read_log "leads.jsonl" w'
      = (read_log "leads.jsonl" w
         ++ [[("ts", VStr (clock w (clock_reads w)));
              ("event", VStr "lead_recorded");
              ("lead_id", VStr (uuid_src w (uuid_draws w)));
              ("email", VStr email); ("name", VStr n);
              ("message", VStr m)]])%list
    ∧ stripped_of email email
    ∧ stripped_of name n
    ∧ stripped_of message m
    ∧ (∀ path, path ≠ "leads.jsonl" → files w' !! path = files w !! path)
    ∧ uuid_draws w' = S (uuid_draws w)
    ∧ clock_reads w' = S (clock_reads w).
Proof.
  intros Hshape. pose proof (email_shape_matches email Hshape) as H.
  pose proof (email_shape_trimmed email Hshape) as Ht.
  eexists _, (strip name), (strip message). split_and!.
  - rewrite record_customer_interest_valid by done.
    rewrite (strip_id email) by done. reflexivity.
  - by apply read_log_insert.
  - by apply trimmed_stripped_of.
  - apply strip_stripped_of.
  - apply strip_stripped_of.
  - intros path Hp. cbn. by rewrite lookup_insert_ne.
  - done.
  - done.
Qed.

(** C4 on the end-to-end example of the specification. *)
Lemma C4_witness :
  email_shape "a@b.com"
  ∧ ∃ (w' : world) (n m : string),
    record_customer_interest (VStr "a@b.com") (VStr "Jane")
                             (VStr " poetry chapbook edit ") w0
    = Ret (VDict [("ok", VBool true);
                  ("lead_id", VStr (uuid_src w0 (uuid_draws w0)));
                  ("ts", VStr (clock w0 (clock_reads w0)))]) w'
    ∧ read_log "leads.jsonl" w'
      = (read_log "leads.jsonl" w0
         ++ [[("ts", VStr (clock w0 (clock_reads w0)));
              ("event", VStr "lead_recorded");
              ("lead_id", VStr (uuid_src w0 (uuid_draws w0)));
              ("email", VStr "a@b.com"); ("name", VStr n);
              ("message", VStr m)]])%list
    ∧ stripped_of "a@b.com" "a@b.com"
    ∧ stripped_of "Jane" n
    ∧ stripped_of " poetry chapbook edit " m
    ∧ (∀ path, path ≠ "leads.jsonl" → files w' !! path = files w0 !! path)
    ∧ uuid_draws w' = S (uuid_draws w0)
    ∧ clock_reads w' = S (clock_reads w0).
Proof.
  assert (email_shape "a@b.com") as H.
  { exists ["a"%char], ["b"%char], ["c"%char; "o"%char; "m"%char].
    unfold word. split_and!; done. }
  split; [exact H|].
  exact (C4_valid_email_is_recorded "a@b.com" "Jane" " poetry chapbook edit " w0 H).
Defined.

(** The lead of the example as it is logged: the message has lost the white
    space at its two ends. *)
Example record_customer_interest_strips_the_message :
  ∃ w', record_customer_interest (VStr "a@b.com") (VStr "Jane")
                                 (VStr " poetry chapbook edit ") w0
        = Ret (lead_result "uuid-0" "2025-01-01T00:00:00+00:00") w'
        ∧ read_log "leads.jsonl" w'
          = [lead_event "uuid-0" "2025-01-01T00:00:00+00:00" "a@b.com" "Jane"
                        "poetry chapbook edit"].
Proof. eexists. split; vm_compute; reflexivity. Qed.

(** C8. Whatever the question, the empty one too, [record_feedback] checks
    nothing: it draws one new identifier, reads the clock once, appends to
    [feedback.jsonl] exactly one event with the question without the white
    space at its two ends (the empty question as it is), leaves every other
    file as it was, and returns [ok: true] with the identifier and the time
    stamp. *)
Theorem C8_feedback_is_always_recorded (question : string) (w : world) :
  ∃ (w' : world) (q : string),
    record_feedback (VStr question) w
    = Ret (VDict [("ok", VBool true);
                  ("feedback_id", VStr (uuid_src w (uuid_draws w)));
                  ("ts", VStr (clock w (clock_reads w)))]) w'
    ∧ read_log "feedback.jsonl" w'
      = (read_log "feedback.jsonl" w
         ++ [[("ts", VStr (clock w (clock_reads w)));
              ("event", VStr "feedback_recorded");
              ("feedback_id", VStr (uuid_src w (uuid_draws w)));
              ("question", VStr q)]])%list
    ∧ stripped_of question q
    ∧ (question = "" → q = "")
    ∧ (∀ path, path ≠ "feedback.jsonl" → files w' !! path = files w !! path)
    ∧ uuid_draws w' = S (uuid_draws w)
    ∧ clock_reads w' = S (clock_reads w).
Proof.
  eexists _, (strip question). split_and!.
  - unfold record_feedback, bind. cbn -[strip preview_of].
    rewrite py_or_str. cbn -[strip preview_of]. reflexivity.
  - unfold read_log at 1. cbn -[strip]. by rewrite lookup_insert_eq.
  - apply strip_stripped_of.
  - by intros ->.
  - intros path Hp. cbn -[strip]. by rewrite lookup_insert_ne.
  - done.
  - done.
Qed.

(** A question between white space is recorded without it. *)
Example record_feedback_strips_the_question :
  ∃ w', record_feedback (VStr "  Do you edit scripts? ") w0
        = Ret (feedback_result "uuid-0" "2025-01-01T00:00:00+00:00") w'
        ∧ read_log "feedback.jsonl" w'
          = [feedback_event "uuid-0" "2025-01-01T00:00:00+00:00"
                            "Do you edit scripts?"].
Proof. eexists. split; vm_compute; reflexivity. Qed.

(** The empty question is recorded as it is. *)
Example record_feedback_empty_question :
  ∃ w', record_feedback (VStr "") w0
        = Ret (feedback_result "uuid-0" "2025-01-01T00:00:00+00:00") w'
        ∧ read_log "feedback.jsonl" w'
          = [feedback_event "uuid-0" "2025-01-01T00:00:00+00:00" ""].
Proof. eexists. split; vm_compute; reflexivity. Qed.

(** C10. An address followed by one line feed ends with a white space and is
    accepted all the same: [$] also matches before a final line feed.  The
    lead is logged with the stripped email. *)
Theorem C10_final_line_feed_is_accepted (name message : string) (w : world) :
  trailing_space ("a@b.c" ++ LF) = true
  ∧ ∃ w' : world,
    record_customer_interest (VStr ("a@b.c" ++ LF)) (VStr name) (VStr message) w
    = Ret (VDict [("ok", VBool true);
                  ("lead_id", VStr (uuid_src w (uuid_draws w)));
                  ("ts", VStr (clock w (clock_reads w)))]) w'
    ∧ read_log "leads.jsonl" w'
      = (read_log "leads.jsonl" w
         ++ [[("ts", VStr (clock w (clock_reads w)));
              ("event", VStr "lead_recorded");
              ("lead_id", VStr (uuid_src w (uuid_draws w)));
              ("email", VStr "a@b.c"); ("name", VStr (strip name));
              ("message", VStr (strip message))]])%list.
Proof.
  split; [reflexivity|]. eexists. split.
  - by apply record_customer_interest_valid.
  - by apply read_log_insert.
Qed.

(** Every other email with a white space at its start or at its end is
    refused, before anything is stripped. *)
Lemma space_around_email_is_rejected email name message w :
  leading_space email = true ∨ trailing_space email = true →
  (∀ addr, email_shape addr → email ≠ addr ++ LF) →
  record_customer_interest (VStr email) name message w
  = Ret (invalid_email_result (next_uuid w) (next_ts w))
        (after_call w (files w)
           [P_lead_invalid (next_ts w) (next_uuid w) (VStr email)]).
Proof.
  intros Hsp Hno. apply record_customer_interest_invalid.
  destruct (re_match EMAIL_RE email) eqn:E; [|done].
  destruct (space_around_email_matches email Hsp E) as (addr & ? & ?).
  by destruct (Hno addr).
Qed.

(** The identifier a call is given was not drawn before, as long as
    [uuid4] does not repeat itself. *)
Lemma next_uuid_is_new (w : world) (k : nat) :
  (∀ i j, uuid_src w i = uuid_src w j → i = j) →
  (k < uuid_draws w)%nat → uuid_src w k ≠ next_uuid w.
Proof. intros Hinj Hk Heq. apply Hinj in Heq. lia. Qed.

End Handlers.

(** ** The result of a tool call *)

Section ToolResult.

(** The handlers raise instances of [Exception] only. *)

Lemma roe_ret {S A} (a : A) : raises_only_Exception (@ret S A a).
Proof. intros s e s' [=]. Qed.

Lemma roe_raise {S A} (e : exn) :
  isinstance e "Exception" = true → raises_only_Exception (@raise S A e).
Proof. intros He s e' s' [= <- _]. exact He. Qed.

Lemma roe_bind {S A B} (m : S → outcome S A) (k : A → S → outcome S B) :
  raises_only_Exception m → (∀ a, raises_only_Exception (k a)) →
  raises_only_Exception (bind m k).
Proof.
  intros Hm Hk s e s'. unfold bind. destruct (m s) as [a s1|e1 s1] eqn:E.
  - apply Hk.
  - intros [= <- _]. by apply (Hm s e1 s1).
Qed.

Lemma roe_if {S A} (b : bool) (m1 m2 : S → outcome S A) :
  raises_only_Exception m1 → raises_only_Exception m2 →
  raises_only_Exception (if b then m1 else m2).
Proof. by destruct b. Qed.

Lemma roe_uuid4_str : raises_only_Exception uuid4_str.
Proof. intros s e s' [=]. Qed.

Lemma roe_now_iso : raises_only_Exception _now_iso.
Proof. intros s e s' [=]. Qed.

Lemma roe_print line : raises_only_Exception (print line).
Proof. intros s e s' [=]. Qed.

Lemma roe_append_jsonl path obj : raises_only_Exception (_append_jsonl path obj).
Proof. intros s e s' [=]. Qed.

Lemma roe_EMAIL_RE_match v : raises_only_Exception (EMAIL_RE_match v).
Proof. destruct v; (apply roe_ret || by apply roe_raise). Qed.

Lemma roe_py_strip v : raises_only_Exception (py_strip v).
Proof. destruct v; (apply roe_ret || by apply roe_raise). Qed.

Create HintDb roe.
#[local] Hint Resolve roe_ret roe_uuid4_str roe_now_iso roe_print
  roe_append_jsonl roe_EMAIL_RE_match roe_py_strip : roe.

Ltac roe_step :=
  first [ apply roe_bind; [|intros ?] | apply roe_if | solve [auto with roe] ].

Lemma roe_record_customer_interest email name message :
  raises_only_Exception (record_customer_interest email name message).
Proof. unfold record_customer_interest. repeat roe_step. Qed.

Lemma roe_record_feedback question :
  raises_only_Exception (record_feedback question).
Proof. unfold record_feedback. repeat roe_step. Qed.

Lemma roe_call_kwargs fn args :
  (∀ kw, raises_only_Exception (fn_body fn kw)) →
  raises_only_Exception (call_kwargs fn args).
Proof.
  intros Hbody. unfold call_kwargs.
  destruct (List.filter _ (dict_keys args)); [|by apply roe_raise].
  destruct (List.filter _ (fn_params fn)); [apply Hbody|by apply roe_raise].
Qed.

Lemma TOOLS_MAP_lookup name fn :
  TOOLS_MAP !! name = Some fn →
  fn = fn_record_customer_interest ∨ fn = fn_record_feedback.
Proof.
  unfold TOOLS_MAP. intros H.
  apply lookup_insert_Some in H as [[_ <-]|[_ H]]; [by left|].
  apply lookup_insert_Some in H as [[_ <-]|[_ H]]; [by right|].
  by rewrite lookup_empty in H.
Qed.

Lemma roe_registered name fn args :
  TOOLS_MAP !! name = Some fn → raises_only_Exception (call_kwargs fn args).
Proof.
  intros [-> | ->]%TOOLS_MAP_lookup; apply roe_call_kwargs; intros kw; cbn.
  - apply roe_record_customer_interest.
  - apply roe_record_feedback.
Qed.

(** The [try] block lets through no instance of [Exception]. *)
Lemma call_guarded_raises fn args w e w' :
  call_guarded fn args w = Raise e w' → isinstance e "Exception" = false.
Proof.
  unfold call_guarded. destruct (call_kwargs fn args w) as [r w1|e1 w1]; [done|].
  destruct (isinstance e1 "TypeError"); [done|].
  destruct (isinstance e1 "Exception") eqn:E; [done|]. by intros [= <- _].
Qed.

Lemma call_guarded_returns fn args w :
  raises_only_Exception (call_kwargs fn args) →
  ∃ tool_result w', call_guarded fn args w = Ret tool_result w'.
Proof.
  intros Hroe. destruct (call_guarded fn args w) as [r w'|e w'] eqn:E; [eauto|].
  pose proof (call_guarded_raises _ _ _ _ _ E) as He.
  unfold call_guarded in E.
  destruct (call_kwargs fn args w) as [r w1|e1 w1] eqn:Ec; [done|].
  pose proof (Hroe w e1 w1 Ec) as He1.
  destruct (isinstance e1 "TypeError"); [done|]. by rewrite He1 in E.
Qed.

Lemma tool_result_of_unknown name args w :
  TOOLS_MAP !! name = None →
  tool_result_of name args w = Ret (unknown_tool_result name args) w.
Proof. intros H. unfold tool_result_of. by rewrite H. Qed.

Lemma tool_result_of_total name args w :
  ∃ tool_result w', tool_result_of name args w = Ret tool_result w'.
Proof.
  unfold tool_result_of. destruct (TOOLS_MAP !! name) as [fn|] eqn:E.
  - apply call_guarded_returns. by eapply roe_registered.
  - by eexists _, _.
Qed.

Lemma filter_nil_forallb {A} (f : A → bool) (l : list A) :
  List.filter (fun x => negb (f x)) l = [] ↔ forallb f l = true.
Proof.
  induction l as [|x l IH]; [done|]. cbn. destruct (f x); cbn; [done|].
  split; done.
Qed.

Lemma call_kwargs_mismatch fn args w :
  fits_signature fn args = false →
  ∃ msg, call_kwargs fn args w = Raise (TypeError msg) w.
Proof.
  unfold fits_signature, call_kwargs. intros H.
  destruct (List.filter _ (dict_keys args)) as [|k ks] eqn:E1; [|by eexists].
  apply filter_nil_forallb in E1. rewrite E1 in H. cbn in H.
  destruct (List.filter _ (fn_params fn)) as [|p ps] eqn:E2; [|by eexists].
  apply filter_nil_forallb in E2. congruence.
Qed.

Lemma call_kwargs_fits fn args w :
  fits_signature fn args = true → call_kwargs fn args w = fn_body fn args w.
Proof.
  unfold fits_signature, call_kwargs. intros [H1 H2]%andb_prop.
  apply filter_nil_forallb in H1, H2. by rewrite H1, H2.
Qed.

(** C5, as amended.  A call of a registered handler always yields a result,
    never an exception: arguments that do not fit the parameters give
    [bad_arguments:...] with the arguments received and leave the world
    untouched; an exception of the call gives [bad_arguments:...] with the
    arguments received when it is a [TypeError], wherever it was raised, and
    [runtime:<class>:<text>] when it is not; a value returned by the handler
    is the result. *)
Theorem C5_handler_failures_become_results
    (name : string) (fn : pyfunc) (args : pydict) (w : world) :
  TOOLS_MAP !! name = Some fn →
  ∃ (tool_result : pyval) (w' : world),
    tool_result_of name args w = Ret tool_result w'
    ∧ (fits_signature fn args = false →
       ∃ details,
         tool_result = VDict [("ok", VBool false);
                              ("error", VStr ("bad_arguments:" ++ details));
                              ("received_args", VDict args)]
         ∧ w' = w)
    ∧ (∀ e w1, call_kwargs fn args w = Raise e w1 →
       w' = w1 ∧
       if isinstance e "TypeError"
       then tool_result = VDict [("ok", VBool false);
                                 ("error", VStr ("bad_arguments:" ++ exn_str e));
                                 ("received_args", VDict args)]
       else tool_result = VDict [("ok", VBool false);
                                 ("error", VStr ("runtime:" ++ class_name e
                                                 ++ ":" ++ exn_str e))])
    ∧ (∀ r w1, call_kwargs fn args w = Ret r w1 → tool_result = r ∧ w' = w1).
Proof.
  intros Hfn. unfold tool_result_of, call_guarded. rewrite Hfn.
  destruct (call_kwargs fn args w) as [r w1|e w1] eqn:E.
  - exists r, w1. split_and!; [done| |done|by intros ? ? [= <- <-]].
    intros [msg Hm]%(call_kwargs_mismatch fn args w). congruence.
  - pose proof (roe_registered name fn args Hfn w e w1 E) as Hexc.
    destruct (isinstance e "TypeError") eqn:Et.
    + eexists _, _. split_and!; [done| | |done].
      * intros [msg Hm]%(call_kwargs_mismatch fn args w).
        rewrite Hm in E. injection E as <- <-. by exists msg.
      * intros e' w1' [= <- <-]. by rewrite Et.
    + rewrite Hexc. eexists _, _. split_and!; [done| | |done].
      * intros [msg Hm]%(call_kwargs_mismatch fn args w).
        rewrite Hm in E. injection E as <- <-. done.
      * intros e' w1' [= <- <-]. by rewrite Et.
Qed.

(** C5 on a question that is a number: [record_feedback] fails on
    [strip]. *)
Lemma C5_witness :
  TOOLS_MAP !! "record_feedback" = Some fn_record_feedback
  ∧ ∃ (tool_result : pyval) (w' : world),
    tool_result_of "record_feedback" [("question", VNum 7)] w0
    = Ret tool_result w'
    ∧ (fits_signature fn_record_feedback [("question", VNum 7)] = false →
       ∃ details,
         tool_result = VDict [("ok", VBool false);
                              ("error", VStr ("bad_arguments:" ++ details));
                              ("received_args", VDict [("question", VNum 7)])]
         ∧ w' = w0)
    ∧ (∀ e w1, call_kwargs fn_record_feedback [("question", VNum 7)] w0
               = Raise e w1 →
       w' = w1 ∧
       if isinstance e "TypeError"
       then tool_result = VDict [("ok", VBool false);
                                 ("error", VStr ("bad_arguments:" ++ exn_str e));
                                 ("received_args", VDict [("question", VNum 7)])]
       else tool_result = VDict [("ok", VBool false);
                                 ("error", VStr ("runtime:" ++ class_name e
                                                 ++ ":" ++ exn_str e))])
    ∧ (∀ r w1, call_kwargs fn_record_feedback [("question", VNum 7)] w0
               = Ret r w1 → tool_result = r ∧ w' = w1).
Proof.
  split; [reflexivity|].
  apply (C5_handler_failures_become_results "record_feedback"
           fn_record_feedback [("question", VNum 7)] w0).
  reflexivity.
Defined.

(** Keyword arguments that do not fit: the body does not run. *)
Example bad_arguments_unexpected_keyword :
  tool_result_of "record_feedback" [("q", VStr "hi")] w0
  = Ret (VDict [("ok", VBool false);
                ("error", VStr "bad_arguments:record_feedback() got an unexpected keyword argument 'q'");
                ("received_args", VDict [("q", VStr "hi")])]) w0.
Proof. reflexivity. Qed.

Example bad_arguments_missing :
  tool_result_of "record_customer_interest" [("email", VStr "a@b.com")] w0
  = Ret (VDict [("ok", VBool false);
                ("error", VStr "bad_arguments:record_customer_interest() missing 2 required positional arguments: 'name' and 'message'");
                ("received_args", VDict [("email", VStr "a@b.com")])]) w0.
Proof. reflexivity. Qed.

(** A question that is a number has no [strip]: the handler fails after it
    drew its identifier and read the clock. *)
Example runtime_error_in_handler :
  tool_result_of "record_feedback" [("question", VNum 7)] w0
  = Ret (VDict [("ok", VBool false);
                ("error", VStr "runtime:AttributeError:'float' object has no attribute 'strip'")])
        (after_call w0 ∅ []).
Proof. reflexivity. Qed.

(** An email that is a number makes the matching itself a [TypeError], which
    is reported as bad arguments too. *)
Example type_error_in_handler :
  tool_result_of "record_customer_interest" number_email_args w0
  = Ret (VDict [("ok", VBool false);
                ("error", VStr "bad_arguments:expected string or bytes-like object, got 'float'");
                ("received_args", VDict number_email_args)])
        (after_call w0 ∅ []).
Proof. reflexivity. Qed.

(** C5, as stated, fails: not every failure of a handler whose arguments fit
    its parameters is reported as [runtime:...].  With a number for the
    email the three parameters are there and the handler raises a
    [TypeError] of its own, which is reported as [bad_arguments:...]. *)
Lemma C5_type_error_inside_handler_is_bad_arguments :
  ¬ (∀ name fn args w e w1,
       TOOLS_MAP !! name = Some fn →
       fits_signature fn args = true →
       call_kwargs fn args w = Raise e w1 →
       tool_result_of name args w
       = Ret (VDict [("ok", VBool false);
                     ("error", VStr ("runtime:" ++ class_name e ++ ":"
                                     ++ exn_str e))]) w1).
Proof.
  intros H.
  specialize (H "record_customer_interest" fn_record_customer_interest
                number_email_args w0
                (TypeError "expected string or bytes-like object, got 'float'")
                (after_call w0 ∅ []) eq_refl eq_refl eq_refl).
  rewrite type_error_in_handler in H. discriminate H.
Qed.

End ToolResult.

(** ** The orchestration loop *)

Section Loop.

Lemma for_parts_call p fc ps called_any resp c w :
  part_function_call p = Some fc →
  for_parts (p :: ps) called_any resp (c, w)
  = match tool_result_of (fc_name fc) (default [] (fc_args fc)) w with
    | Ret tool_result w1 =>
        match remote c (history c ++ [Sent (tool_message (fc_name fc) tool_result)])%list with
        | Reply answer =>
            for_parts ps true answer
              (mkChat (history c ++ [Sent (tool_message (fc_name fc) tool_result);
                                     Received answer])%list (remote c), w1)
        | TransportError e => Raise e (c, w1)
        end
    | Raise e w1 => Raise e (c, w1)
    end.
Proof.
  intros Hp. cbn [for_parts]. rewrite Hp. unfold bind, in_world, in_chat. cbn [fst snd].
  destruct (tool_result_of _ _ w) as [tr w1|e w1]; [|done].
  unfold send_message. cbn [fst snd].
  destruct (remote c _); done.
Qed.

Lemma for_parts_skip p ps called_any resp st :
  part_function_call p = None →
  for_parts (p :: ps) called_any resp st = for_parts ps called_any resp st.
Proof. intros Hp. cbn [for_parts]. by rewrite Hp. Qed.

(** C6. A call of a tool that is not in the registry raises nothing and
    changes nothing in the world: its result is [ok: false] with the error
    [unknown_tool:] followed by the name and with the arguments received; the
    result is sent to the model and the loop goes on with the parts that are
    left and the answer of the model. *)
Theorem C6_unknown_tool_is_answered
    (p : part) (fc : function_call) (ps : list part) (called_any : bool)
    (resp : response) (c : chat) (w : world) :
  part_function_call p = Some fc →
  TOOLS_MAP !! fc_name fc = None →
  tool_result_of (fc_name fc) (default [] (fc_args fc)) w
  = Ret (VDict [("ok", VBool false);
                ("error", VStr ("unknown_tool:" ++ fc_name fc));
                ("received_args", VDict (default [] (fc_args fc)))]) w
  ∧ for_parts (p :: ps) called_any resp (c, w)
    = match remote c (history c
                      ++ [Sent (tool_message (fc_name fc)
                                  (unknown_tool_result (fc_name fc)
                                     (default [] (fc_args fc))))])%list with
      | Reply answer =>
          for_parts ps true answer
            (mkChat (history c
                     ++ [Sent (tool_message (fc_name fc)
                                 (unknown_tool_result (fc_name fc)
                                    (default [] (fc_args fc))));
                         Received answer])%list (remote c), w)
      | TransportError e => Raise e (c, w)
      end.
Proof.
  intros Hp Hname. split.
  - by apply tool_result_of_unknown.
  - rewrite (for_parts_call p fc) by done.
    by rewrite tool_result_of_unknown.
Qed.

(** C6 on a call of [send_invoice], which the registry does not have. *)
Lemma C6_witness :
  part_function_call (mkPart (Some "") (Some unknown_tool_call) None)
  = Some unknown_tool_call
  ∧ TOOLS_MAP !! fc_name unknown_tool_call = None
  ∧ tool_result_of (fc_name unknown_tool_call)
                   (default [] (fc_args unknown_tool_call)) w0
    = Ret (VDict [("ok", VBool false);
                  ("error", VStr ("unknown_tool:" ++ fc_name unknown_tool_call));
                  ("received_args",
                   VDict (default [] (fc_args unknown_tool_call)))]) w0
  ∧ for_parts [mkPart (Some "") (Some unknown_tool_call) None] false
              unknown_tool_answer
              (chat_after script_unknown_tool "hello" unknown_tool_answer, w0)
    = match remote (chat_after script_unknown_tool "hello" unknown_tool_answer)
              (history (chat_after script_unknown_tool "hello" unknown_tool_answer)
               ++ [Sent (tool_message (fc_name unknown_tool_call)
                           (unknown_tool_result (fc_name unknown_tool_call)
                              (default [] (fc_args unknown_tool_call))))])%list with
      | Reply answer =>
          for_parts [] true answer
            (mkChat (history (chat_after script_unknown_tool "hello" unknown_tool_answer)
                     ++ [Sent (tool_message (fc_name unknown_tool_call)
                                 (unknown_tool_result (fc_name unknown_tool_call)
                                    (default [] (fc_args unknown_tool_call))));
                         Received answer])%list
                    (remote (chat_after script_unknown_tool "hello" unknown_tool_answer)),
             w0)
      | TransportError e =>
          Raise e (chat_after script_unknown_tool "hello" unknown_tool_answer, w0)
      end.
Proof.
  split; [reflexivity|]. split; [reflexivity|].
  apply (C6_unknown_tool_is_answered
           (mkPart (Some "") (Some unknown_tool_call) None) unknown_tool_call []
           false unknown_tool_answer
           (chat_after script_unknown_tool "hello" unknown_tool_answer) w0);
    reflexivity.
Defined.


(** The loop over the parts does to the tool calls among them, in their
    order, what step 2 of the transition rules says. *)
Lemma for_parts_serves ps : ∀ called_any resp c w called_any' resp' c' w',
  for_parts ps called_any resp (c, w) = Ret (called_any', resp') (c', w') →
  serves (remote c) (calls_of_parts ps) w (history c) resp w' (history c') resp'
  ∧ remote c' = remote c
  ∧ called_any' = match calls_of_parts ps with [] => called_any | _ => true end
  ∧ length (history c') = length (history c) + 2 * length (calls_of_parts ps).
Proof.
  induction ps as [|p ps IH]; intros called_any resp c w called_any' resp' c' w' H.
  - injection H as <- <- <- <-. split_and!; [constructor|done|done|cbn; lia].
  - destruct (part_function_call p) as [fc|] eqn:Hp.
    + rewrite (for_parts_call p fc) in H by done.
      destruct (tool_result_of _ _ w) as [tr w1|e w1] eqn:Ht; [|done].
      destruct (remote c _) as [answer|e] eqn:Hr; [|done].
      apply IH in H as (Hs & Hrem & Hc & Hlen). cbn [history remote] in *.
      unfold calls_of_parts. cbn [omap list_omap]. rewrite Hp.
      fold (calls_of_parts ps). split_and!.
      * by eapply serves_call.
      * done.
      * rewrite Hc. by destruct (calls_of_parts ps).
      * rewrite Hlen, length_app. cbn. lia.
    + rewrite for_parts_skip in H by done.
      apply IH in H. unfold calls_of_parts. cbn [omap list_omap]. by rewrite Hp.
Qed.

Lemma for_parts_returns ps : ∀ called_any resp c w,
  (∀ h, ∃ r, remote c h = Reply r) →
  ∃ called_any' resp' c' w',
    for_parts ps called_any resp (c, w) = Ret (called_any', resp') (c', w').
Proof.
  induction ps as [|p ps IH]; intros called_any resp c w Hremote.
  - by eexists _, _, _, _.
  - destruct (part_function_call p) as [fc|] eqn:Hp.
    + rewrite (for_parts_call p fc) by done.
      destruct (tool_result_of_total (fc_name fc) (default [] (fc_args fc)) w)
        as (tr & w1 & ->).
      destruct (Hremote (history c ++ [Sent (tool_message (fc_name fc) tr)])%list)
        as [answer ->].
      by apply IH.
    + rewrite for_parts_skip by done. by apply IH.
Qed.

Lemma tool_result_of_executed name args w tool_result w1 :
  tool_result_of name args w = Ret tool_result w1 →
  executed name args w tool_result w1.
Proof.
  unfold tool_result_of, executed, call_guarded.
  destruct (TOOLS_MAP !! name) as [fn|] eqn:E.
  - pose proof (roe_registered name fn args E w) as Hroe.
    destruct (call_kwargs fn args w) as [r w'|e w'].
    + by intros [= <- <-].
    + rewrite (Hroe e w' eq_refl).
      destruct (isinstance e "TypeError"); by intros [= <- <-].
  - by intros [= <- <-].
Qed.

Lemma serves_answered_in_turn remote calls w h resp w' h' resp' :
  serves remote calls w h resp w' h' resp' →
  answered_in_turn remote calls w h resp w' h' resp'.
Proof.
  induction 1 as [|fc calls w h resp tool_result w1 answer w' h' resp'
                    Htool Hanswer _ IH]; [constructor|].
  eapply answered_call; [by apply tool_result_of_executed|exact Hanswer|exact IH].
Qed.

(** C2. With a transport that does not fail, the loop over the parts of a
    response returns, and it has answered the tool calls of the response as
    step 2 says: in the order of the parts, each call is executed in the
    world the calls before it left (the handler of that name is called with
    the arguments, or the name is unknown), its result is sent at once and
    alone in a message of the role [tool] whose one part is a function
    response with the name of the tool and the result, and the answer to
    that message is the current response from then on.  The history grows by
    one message and one answer for each call. *)
Theorem C2_each_call_is_answered_in_turn
    (resp : response) (called_any : bool) (c : chat) (w : world) :
  (∀ h, ∃ r, remote c h = Reply r) →
  ∃ called_any' resp' c' w',
    for_parts (response_parts resp) called_any resp (c, w)
    = Ret (called_any', resp') (c', w')
    ∧ answered_in_turn (remote c) (response_calls resp) w (history c) resp
                       w' (history c') resp'
    ∧ called_any' = match response_calls resp with [] => called_any | _ => true end
    ∧ length (history c')
      = length (history c) + 2 * length (response_calls resp).
Proof.
  intros Hremote.
  destruct (for_parts_returns (response_parts resp) called_any resp c w Hremote)
    as (called_any' & resp' & c' & w' & H).
  exists called_any', resp', c', w'. split; [done|].
  apply for_parts_serves in H as (? & _ & ? & ?).
  split_and!; [by apply serves_answered_in_turn|done|done].
Qed.

(** C2 on an answer with two tool calls. *)
Lemma C2_witness :
  (∀ h, ∃ r, remote (chat_after script_two_calls "hello" two_calls_answer) h = Reply r)
  ∧ ∃ called_any' resp' c' w',
    for_parts (response_parts two_calls_answer) false two_calls_answer
              (chat_after script_two_calls "hello" two_calls_answer, w0)
    = Ret (called_any', resp') (c', w')
    ∧ answered_in_turn
        (remote (chat_after script_two_calls "hello" two_calls_answer))
        (response_calls two_calls_answer) w0
        (history (chat_after script_two_calls "hello" two_calls_answer))
        two_calls_answer w' (history c') resp'
    ∧ called_any' = match response_calls two_calls_answer with
                    | [] => false
                    | _ => true
                    end
    ∧ length (history c')
      = length (history (chat_after script_two_calls "hello" two_calls_answer))
        + 2 * length (response_calls two_calls_answer).
Proof.
  split; [intros h; eexists; reflexivity|].
  apply (C2_each_call_is_answered_in_turn two_calls_answer false
           (chat_after script_two_calls "hello" two_calls_answer) w0).
  intros h; eexists; reflexivity.
Defined.

(** The two calls of that answer, as they are answered: the question goes to
    the feedback log and its result to the model, then the lead goes to the
    lead log and its result to the model. *)
Example two_calls_are_answered_in_turn :
  ∃ c' w',
    for_parts (response_parts two_calls_answer) false two_calls_answer
              (chat_after script_two_calls "hello" two_calls_answer, w0)
    = Ret (true, model_says [text_part "Both are noted."]) (c', w')
    ∧ history c'
      = [Sent (MText "hello");
         Received two_calls_answer;
         Sent (MContent
                 {| role := "tool";
                    parts := Some [{| part_text := None;
                                      part_function_call := None;
                                      part_function_response :=
                                        Some ("record_feedback",
                                              VDict [("ok", VBool true);
                                                     ("feedback_id", VStr "uuid-0");
                                                     ("ts", VStr "2025-01-01T00:00:00+00:00")]) |}] |});
         Received (model_says [call_part "record_feedback"
                                 [("question", VStr "What are the rates?")]]);
         Sent (MContent
                 {| role := "tool";
                    parts := Some [{| part_text := None;
                                      part_function_call := None;
                                      part_function_response :=
                                        Some ("record_customer_interest",
                                              VDict [("ok", VBool true);
                                                     ("lead_id", VStr "uuid-1");
                                                     ("ts", VStr "2025-01-01T00:00:01+00:00")]) |}] |});
         Received (model_says [text_part "Both are noted."])]
    ∧ read_log "feedback.jsonl" w'
      = [feedback_event "uuid-0" "2025-01-01T00:00:00+00:00" "Do you edit scripts?"]
    ∧ read_log "leads.jsonl" w'
      = [lead_event "uuid-1" "2025-01-01T00:00:01+00:00" "a@b.com" "Jane"
                    "poetry chapbook edit"].
Proof. eexists _, _. split_and!; [vm_compute; reflexivity|reflexivity..]. Qed.

Lemma for_parts_no_calls ps : ∀ called_any resp st,
  calls_of_parts ps = [] → for_parts ps called_any resp st = Ret (called_any, resp) st.
Proof.
  induction ps as [|p ps IH]; intros called_any resp st H; [done|].
  unfold calls_of_parts in H. cbn [omap list_omap] in H.
  destruct (part_function_call p) eqn:Hp; [done|].
  rewrite for_parts_skip by done. by apply IH.
Qed.

Lemma for_parts_one_call ps : ∀ fc called_any resp c w,
  calls_of_parts ps = [fc] →
  for_parts ps called_any resp (c, w)
  = match tool_result_of (fc_name fc) (default [] (fc_args fc)) w with
    | Ret tool_result w1 =>
        match remote c (history c ++ [Sent (tool_message (fc_name fc) tool_result)])%list with
        | Reply answer =>
            Ret (true, answer)
              (mkChat (history c ++ [Sent (tool_message (fc_name fc) tool_result);
                                     Received answer])%list (remote c), w1)
        | TransportError e => Raise e (c, w1)
        end
    | Raise e w1 => Raise e (c, w1)
    end.
Proof.
  induction ps as [|p ps IH]; intros fc called_any resp c w H; [done|].
  unfold calls_of_parts in H. cbn [omap list_omap] in H.
  destruct (part_function_call p) as [fc'|] eqn:Hp.
  - injection H as -> H. rewrite (for_parts_call p fc) by done.
    destruct (tool_result_of _ _ w); [|done].
    destruct (remote c _); [|done].
    by rewrite for_parts_no_calls.
  - rewrite for_parts_skip by done. by apply IH.
Qed.

Lemma first_parts_ok resp st :
  candidates resp ≠ [] → first_parts resp st = Ret (response_parts resp) st.
Proof. unfold first_parts, response_parts. by destruct (candidates resp). Qed.

(** One round of the [while True] loop. *)
Lemma run_tools_round fuel resp st :
  candidates resp ≠ [] →
  _run_tools_if_any (S fuel) resp st
  = match for_parts (response_parts resp) false resp st with
    | Raise e st' => Some (Raise e st')
    | Ret (called_any, resp') st' =>
        if negb called_any then Some (Ret resp' st')
        else _run_tools_if_any fuel resp' st'
    end.
Proof. intros H. cbn [_run_tools_if_any]. by rewrite first_parts_ok. Qed.

Lemma response_calls_candidates resp :
  response_calls resp ≠ [] → candidates resp ≠ [].
Proof. unfold response_calls, response_parts. by destruct (candidates resp). Qed.

(** What the loop returns is a response that has a candidate and no tool
    call. *)
Lemma run_tools_final fuel : ∀ resp st final st',
  _run_tools_if_any fuel resp st = Some (Ret final st') →
  candidates final ≠ [] ∧ response_calls final = [].
Proof.
  induction fuel as [|fuel IH]; intros resp st final st' H; [done|].
  destruct (candidates resp) as [|cand cs] eqn:Hc.
  { cbn in H. unfold first_parts in H. by rewrite Hc in H. }
  rewrite run_tools_round in H by (by rewrite Hc).
  destruct (for_parts _ _ _ st) as [[called_any resp'] st1|e st1] eqn:Hf; [|done].
  destruct called_any; cbn [negb] in H.
  - by apply IH in H.
  - injection H as <- <-. destruct st as [c w], st1 as [c1 w1].
    destruct (for_parts_serves _ _ _ _ _ _ _ _ _ Hf) as (_ & _ & Hca & _).
    destruct (calls_of_parts (response_parts resp)) eqn:Hcalls; [|done].
    rewrite for_parts_no_calls in Hf by done.
    injection Hf as <- <- <-. split; [by rewrite Hc|done].
Qed.

Lemma ask_sends user_text c w r0 :
  remote c (history c ++ [Sent (MText user_text)])%list = Reply r0 →
  in_chat (send_message (MText user_text)) (c, w)
  = Ret r0 (mkChat (history c ++ [Sent (MText user_text); Received r0])%list
                   (remote c), w).
Proof. intros H. unfold in_chat, send_message. cbn [fst snd]. by rewrite H. Qed.

(** C7. The model asks for one tool call and answers the result of it with
    a response that has no tool call and the text [t]: with two rounds or
    more to run, [ask] returns [t]; the tool was called once and the history
    has grown by the user's message, the first answer, one tool message and
    the final answer. *)
Theorem C7_one_tool_round_trip
    (c : chat) (w : world) (user_text : string) (r0 r1 : response)
    (fc : function_call) (t : string) (fuel : nat) :
  remote c (history c ++ [Sent (MText user_text)])%list = Reply r0 →
  response_calls r0 = [fc] →
  (∀ tool_result,
     remote c (history c ++ [Sent (MText user_text); Received r0;
                             Sent (tool_message (fc_name fc) tool_result)])%list
     = Reply r1) →
  candidates r1 ≠ [] →
  response_calls r1 = [] →
  text r1 = Has t →
  (2 ≤ fuel)%nat →
  ∃ (tool_result : pyval) (w' : world),
    tool_result_of (fc_name fc) (default [] (fc_args fc)) w = Ret tool_result w'
    ∧ ask fuel user_text (c, w)
      = Some (Ret t (mkChat (history c
                             ++ [Sent (MText user_text); Received r0;
                                 Sent (tool_message (fc_name fc) tool_result);
                                 Received r1])%list (remote c), w')).
Proof.
  intros H0 Hcalls H1 Hcand1 Hnone Ht Hfuel.
  destruct fuel as [|[|fuel]]; [lia|lia|].
  destruct (tool_result_of_total (fc_name fc) (default [] (fc_args fc)) w)
    as (tr & w' & Htr).
  exists tr, w'. split; [done|].
  unfold ask. rewrite (ask_sends _ _ _ r0) by done.
  rewrite run_tools_round by (apply response_calls_candidates; by rewrite Hcalls).
  rewrite (for_parts_one_call _ fc) by done. rewrite Htr.
  cbn [history remote]. rewrite <- app_assoc. cbn [app]. rewrite H1.
  cbn [negb]. rewrite run_tools_round by done.
  rewrite for_parts_no_calls by done. cbn [negb]. rewrite Ht.
  rewrite <- app_assoc. done.
Qed.

(** C7 on the script of one call and a text. *)
Lemma C7_witness :
  remote (mkChat [] (scripted script_one_call)) ([] ++ [Sent (MText "hello")])%list
  = Reply one_call_answer
  ∧ response_calls one_call_answer
    = [mkCall "record_customer_interest" (Some jane_args)]
  ∧ (∀ tool_result,
       remote (mkChat [] (scripted script_one_call))
              ([] ++ [Sent (MText "hello"); Received one_call_answer;
                      Sent (tool_message "record_customer_interest" tool_result)])%list
       = Reply thanks_answer)
  ∧ candidates thanks_answer ≠ []
  ∧ response_calls thanks_answer = []
  ∧ text thanks_answer = Has "Thank you Jane, we will be in touch."
  ∧ (2 ≤ 2)%nat
  ∧ ∃ (tool_result : pyval) (w' : world),
      tool_result_of "record_customer_interest" jane_args w0 = Ret tool_result w'
      ∧ ask 2 "hello" (mkChat [] (scripted script_one_call), w0)
        = Some (Ret "Thank you Jane, we will be in touch."
                  (mkChat ([] ++ [Sent (MText "hello"); Received one_call_answer;
                                  Sent (tool_message "record_customer_interest"
                                          tool_result);
                                  Received thanks_answer])%list
                          (scripted script_one_call), w')).
Proof.
  split_and!; [reflexivity|reflexivity|intros; reflexivity|done|reflexivity
              |reflexivity|lia|].
  apply (C7_one_tool_round_trip (mkChat [] (scripted script_one_call)) w0 "hello"
           one_call_answer thanks_answer
           (mkCall "record_customer_interest" (Some jane_args))
           "Thank you Jane, we will be in touch." 2);
    [reflexivity|reflexivity|intros; reflexivity|done|reflexivity|reflexivity|lia].
Defined.


(** C9, as amended.  Once the loop has returned its final response, [ask]
    returns the consolidated text of that response when reading it succeeds;
    when reading it raises an [Exception], the final response still has a
    first candidate, and [ask] returns the texts of the parts of that
    candidate that have an attribute [text], the empty ones too, in their
    order, joined by line feeds. *)
Theorem C9_final_text
    (fuel : nat) (user_text : string) (st st1 st2 : state) (resp final : response) :
  in_chat (send_message (MText user_text)) st = Ret resp st1 →
  _run_tools_if_any fuel resp st1 = Some (Ret final st2) →
  match text final with
  | Has t => ask fuel user_text st = Some (Ret t st2)
  | Fails e =>
      isinstance e "Exception" = true →
      ∃ cand cands,
        candidates final = cand :: cands
        ∧ ∀ ps, parts (cand_content cand) = Some ps →
                ask fuel user_text st
                = Some (Ret (String.concat LF (omap part_text ps)) st2)
  end.
Proof.
  intros Hsend Hrun. unfold ask. rewrite Hsend, Hrun.
  destruct (text final) as [t|e]; [done|].
  intros ->. apply run_tools_final in Hrun as [Hcand _].
  destruct (candidates final) as [|cand cands]; [done|].
  exists cand, cands. split; [done|]. by intros ps ->.
Qed.

(** C9 on an answer whose consolidated text cannot be read. *)
Lemma C9_witness :
  in_chat (send_message (MText "hello")) (mkChat [] (scripted [letter_answer]), w0)
  = Ret letter_answer (chat_after [letter_answer] "hello" letter_answer, w0)
  ∧ _run_tools_if_any 1 letter_answer
      (chat_after [letter_answer] "hello" letter_answer, w0)
    = Some (Ret letter_answer (chat_after [letter_answer] "hello" letter_answer, w0))
  ∧ (isinstance (ValueError "the response holds parts that are no text")
                "Exception" = true →
     ∃ cand cands,
       candidates letter_answer = cand :: cands
       ∧ ∀ ps, parts (cand_content cand) = Some ps →
               ask 1 "hello" (mkChat [] (scripted [letter_answer]), w0)
               = Some (Ret (String.concat LF (omap part_text ps))
                         (chat_after [letter_answer] "hello" letter_answer, w0))).
Proof.
  split; [reflexivity|]. split; [reflexivity|].
  apply (C9_final_text 1 "hello" (mkChat [] (scripted [letter_answer]), w0)
           (chat_after [letter_answer] "hello" letter_answer, w0)
           (chat_after [letter_answer] "hello" letter_answer, w0)
           letter_answer letter_answer); reflexivity.
Defined.

(** The text of the letter, as [ask] returns it: the part that is no text
    gives a line of its own, an empty one. *)
Example ask_joins_the_texts :
  ask 1 "hello" (mkChat [] (scripted [letter_answer]), w0)
  = Some (Ret ("Dear Jane," ++ LF ++ LF ++ "see you soon.")
            (chat_after [letter_answer] "hello" letter_answer, w0)).
Proof. reflexivity. Qed.

(** C9, as stated, fails: what [ask] returns is not always the plain-text
    parts joined by line feeds.  A part that is no text has an empty text
    and is joined with the others: the letter comes back with two line feeds
    between its two texts. *)
Lemma C9_empty_text_is_joined_too :
  ¬ (∀ fuel user_text st st1 st2 resp final e cand cands ps,
       in_chat (send_message (MText user_text)) st = Ret resp st1 →
       _run_tools_if_any fuel resp st1 = Some (Ret final st2) →
       text final = Fails e →
       isinstance e "Exception" = true →
       candidates final = cand :: cands →
       parts (cand_content cand) = Some ps →
       ask fuel user_text st
       = Some (Ret (String.concat LF (plain_texts ps)) st2)).
Proof.
  intros H.
  specialize (H 1 "hello" (mkChat [] (scripted [letter_answer]), w0)
                (chat_after [letter_answer] "hello" letter_answer, w0)
                (chat_after [letter_answer] "hello" letter_answer, w0)
                letter_answer letter_answer
                (ValueError "the response holds parts that are no text")
                (mkCandidate (mkContent "model"
                   (Some [text_part "Dear Jane,"; blob_part;
                          text_part "see you soon."]))) []
                [text_part "Dear Jane,"; blob_part; text_part "see you soon."]
                eq_refl eq_refl eq_refl eq_refl eq_refl eq_refl).
  rewrite ask_joins_the_texts in H. discriminate H.
Qed.

(** The exchange of the specification: one call, one result, one lead. *)
Example ask_records_jane :
  ∃ c' w',
    ask 2 "I'd like a quote, email me at a@b.com, I'm Jane"
        (mkChat [] (scripted script_one_call), w0)
    = Some (Ret "Thank you Jane, we will be in touch." (c', w'))
    ∧ exchange_complete (history c') = true
    ∧ read_log "leads.jsonl" w'
      = [lead_event "uuid-0" "2025-01-01T00:00:00+00:00" "a@b.com" "Jane"
                    "poetry chapbook edit"].
Proof. eexists _, _. split_and!; [vm_compute; reflexivity|reflexivity..]. Qed.

(** C1. The first answer of the model holds two tool calls and the answer to
    the first result holds a third one: the loop returns the final text, but
    it read nothing of the answer in between, so the history holds three tool
    calls and two results, and the last call of [record_feedback] has no
    result after it. *)
Theorem C1_call_in_intermediate_answer_is_dropped :
  ∃ (c' : chat) (w' : world),
    ask 2 "hello" (mkChat [] (scripted script_two_calls), w0)
    = Some (Ret "Both are noted." (c', w'))
    ∧ map (fun t => (call_names t, result_names t)) (history c')
      = [([], []);
         (["record_feedback"; "record_customer_interest"], []);
         ([], ["record_feedback"]);
         (["record_feedback"], []);
         ([], ["record_customer_interest"]);
         ([], [])]
    ∧ unanswered [] (history c') = Some ["record_feedback"]
    ∧ exchange_complete (history c') = false.
Proof. eexists _, _. split_and!; [vm_compute; reflexivity|reflexivity..]. Qed.


Lemma for_parts_keeps_candidates ps : ∀ called_any resp c w called_any' resp' c' w',
  (∀ h r, remote c h = Reply r → candidates r ≠ []) →
  candidates resp ≠ [] →
  for_parts ps called_any resp (c, w) = Ret (called_any', resp') (c', w') →
  candidates resp' ≠ [].
Proof.
  induction ps as [|p ps IH]; intros called_any resp c w called_any' resp' c' w' Hr Hc H.
  - by injection H as <- <- <- <-.
  - destruct (part_function_call p) as [fc|] eqn:Hp.
    + rewrite (for_parts_call p fc) in H by done.
      destruct (tool_result_of _ _ w) as [tr w1|e w1]; [|done].
      destruct (remote c _) as [answer|e] eqn:Ha; [|done].
      eapply IH in H; [done|done|]. by eapply Hr.
    + rewrite for_parts_skip in H by done. by eapply IH in H.
Qed.

(** With a transport that does not fail and answers that have a candidate,
    the loop never raises, whatever the handlers do. *)
Lemma run_tools_never_raises fuel : ∀ resp c w e st',
  (∀ h, ∃ r, remote c h = Reply r ∧ candidates r ≠ []) →
  candidates resp ≠ [] →
  _run_tools_if_any fuel resp (c, w) ≠ Some (Raise e st').
Proof.
  induction fuel as [|fuel IH]; intros resp c w e st' Hr Hc; [done|].
  rewrite run_tools_round by done.
  assert (∀ h, ∃ r, remote c h = Reply r) as Hr1.
  { intros h. destruct (Hr h) as (r & ? & _). by exists r. }
  assert (∀ h r, remote c h = Reply r → candidates r ≠ []) as Hr2.
  { intros h r Hh. destruct (Hr h) as (r' & Hh' & ?). congruence. }
  destruct (for_parts_returns (response_parts resp) false resp c w Hr1)
    as (called_any' & resp' & c' & w' & H).
  rewrite H. destruct called_any'; cbn [negb]; [|done].
  pose proof (for_parts_keeps_candidates _ _ _ _ _ _ _ _ _ Hr2 Hc H).
  destruct (for_parts_serves _ _ _ _ _ _ _ _ _ H) as (_ & Hrem & _).
  apply IH; [by rewrite Hrem|done].
Qed.

Lemma unanswered_round name tool_result answer new :
  unanswered [name] (Sent (tool_message name tool_result) :: Received answer :: new)
  = unanswered (map fc_name (response_calls answer)) new.
Proof. cbn. by rewrite String.eqb_refl. Qed.

(** When no answer of the model holds more than one tool call, every call
    has its result when the loop returns: the turns added to the history
    answer the calls of the response the loop was given, one result a call. *)
Lemma single_calls_are_all_answered fuel : ∀ resp c w final c' w',
  (∀ h r, remote c h = Reply r → (length (response_calls r) ≤ 1)%nat) →
  (length (response_calls resp) ≤ 1)%nat →
  _run_tools_if_any fuel resp (c, w) = Some (Ret final (c', w')) →
  ∃ new, history c' = (history c ++ new)%list
         ∧ unanswered (map fc_name (response_calls resp)) new = Some [].
Proof.
  induction fuel as [|fuel IH]; intros resp c w final c' w' Hr Hone H; [done|].
  destruct (response_calls resp) as [|fc [|fc' calls]] eqn:Hcalls;
    [| |cbn in Hone; lia].
  - destruct (candidates resp) as [|cand cs] eqn:Hc.
    { cbn in H. unfold first_parts in H. by rewrite Hc in H. }
    rewrite run_tools_round in H by (by rewrite Hc).
    rewrite for_parts_no_calls in H by done. cbn [negb] in H.
    injection H as <- <- <-. exists []. by rewrite app_nil_r.
  - rewrite run_tools_round in H
      by (apply response_calls_candidates; by rewrite Hcalls).
    rewrite (for_parts_one_call _ fc) in H by done.
    destruct (tool_result_of _ _ w) as [tr w1|e w1]; [|done].
    destruct (remote c _) as [answer|e] eqn:Ha; [|done].
    cbn [negb] in H. apply IH in H as (new & Hh & Hu).
    + cbn [history] in Hh. eexists. split.
      * rewrite Hh, <- app_assoc. reflexivity.
      * cbn [app map]. by rewrite unanswered_round.
    + exact Hr.
    + by eapply Hr.
Qed.

End Loop.

(** * More properties *)

(** ** The handlers on any values *)

Section HandlersOnValues.

Lemma or_empty_str s : or_empty (VStr s) = Some s.
Proof. unfold or_empty. by rewrite py_or_str. Qed.

Lemma or_empty_falsy v : truthy v = false → or_empty v = Some (match v with VStr s => s | _ => "" end).
Proof.
  intros H. destruct v as [|b|n|s|l|d]; try (unfold or_empty, py_or; by rewrite H).
  apply or_empty_str.
Qed.

Lemma or_empty_None v : or_empty v = None → py_or v (VStr "") = v.
Proof.
  unfold or_empty, py_or. destruct (truthy v); [done|]. done.
Qed.

Lemma py_strip_or_empty v w :
  py_strip (py_or v (VStr "")) w
  = match or_empty v with
    | Some s => Ret (strip s) w
    | None => Raise (AttributeError ("'" ++ type_name v
                                     ++ "' object has no attribute 'strip'")) w
    end.
Proof.
  destruct (or_empty v) as [s|] eqn:E.
  - unfold or_empty in E. by destruct (py_or v (VStr "")); simplify_eq.
  - rewrite (or_empty_None v E). unfold or_empty in E.
    rewrite (or_empty_None v E) in E. by destruct v.
Qed.

Lemma EMAIL_RE_match_or_empty v w :
  EMAIL_RE_match (py_or v (VStr "")) w
  = match or_empty v with
    | Some s => Ret (re_match EMAIL_RE s) w
    | None => Raise (TypeError ("expected string or bytes-like object, got '"
                                ++ type_name v ++ "'")) w
    end.
Proof.
  destruct (or_empty v) as [s|] eqn:E.
  - unfold or_empty in E. by destruct (py_or v (VStr "")); simplify_eq.
  - pose proof (or_empty_None v E) as Hv. unfold or_empty in E.
    rewrite Hv in E |- *. by destruct v.
Qed.

Lemma re_match_empty : re_match EMAIL_RE "" = false.
Proof. reflexivity. Qed.

Lemma or_empty_matched v s :
  or_empty v = Some s → re_match EMAIL_RE s = true → v = VStr s.
Proof.
  intros E Hm. destruct v as [|b|n|s'|l|d];
    try (unfold or_empty, py_or in E; destruct (truthy _); simplify_eq;
         by rewrite re_match_empty in Hm).
  rewrite or_empty_str in E. by simplify_eq.
Qed.

Lemma after_call_nil w :
  mkWorld (uuid_src w) (S (uuid_draws w)) (clock w) (S (clock_reads w))
          (files w) (stdout w)
  = after_call w (files w) [].
Proof. unfold after_call. by rewrite app_nil_r. Qed.

(** All that [record_customer_interest] can do, by the values it is given. *)
Lemma record_customer_interest_outcome email name message w :
  record_customer_interest email name message w
  = match or_empty email with
    | None =>
        Raise (TypeError ("expected string or bytes-like object, got '"
                          ++ type_name email ++ "'"))
              (after_call w (files w) [])
    | Some e =>
        if re_match EMAIL_RE e then
          match or_empty name, or_empty message with
          | Some n, Some m =>
              Ret (lead_result (next_uuid w) (next_ts w))
                  (after_call w
                     (<["leads.jsonl" :=
                          (read_log "leads.jsonl" w
                           ++ [lead_event (next_uuid w) (next_ts w) (strip e)
                                          (strip n) (strip m)])%list]> (files w))
                     [P_lead (next_ts w) (next_uuid w) email (strip n)
                             (preview_of 120 (strip m))])
          | None, _ =>
              Raise (AttributeError ("'" ++ type_name name
                                     ++ "' object has no attribute 'strip'"))
                    (after_call w (files w) [])
          | Some _, None =>
              Raise (AttributeError ("'" ++ type_name message
                                     ++ "' object has no attribute 'strip'"))
                    (after_call w (files w) [])
          end
        else
          Ret (invalid_email_result (next_uuid w) (next_ts w))
              (after_call w (files w)
                 [P_lead_invalid (next_ts w) (next_uuid w) email])
    end.
Proof.
  unfold record_customer_interest, bind at 1 2 3.
  cbn [uuid4_str _now_iso uuid_src uuid_draws clock clock_reads files stdout].
  rewrite EMAIL_RE_match_or_empty.
  destruct (or_empty email) as [e|] eqn:Ee; [|by rewrite after_call_nil].
  destruct (re_match EMAIL_RE e) eqn:Hm; cbn [negb]; [|reflexivity].
  rewrite (or_empty_matched email e Ee Hm).
  unfold bind. cbn [py_strip ret]. rewrite !py_strip_or_empty.
  cbn [uuid_src uuid_draws clock clock_reads files stdout].
  destruct (or_empty name) as [n|]; [|by rewrite after_call_nil].
  rewrite py_strip_or_empty.
  destruct (or_empty message) as [m|]; [|by rewrite after_call_nil].
  reflexivity.
Qed.

(** All that [record_feedback] can do. *)
Lemma record_feedback_outcome question w :
  record_feedback question w
  = match or_empty question with
    | Some q =>
        Ret (feedback_result (next_uuid w) (next_ts w))
            (after_call w
               (<["feedback.jsonl" :=
                    (read_log "feedback.jsonl" w
                     ++ [feedback_event (next_uuid w) (next_ts w) (strip q)])%list]>
                  (files w))
               [P_feedback (next_ts w) (next_uuid w) (preview_of 140 (strip q))])
    | None =>
        Raise (AttributeError ("'" ++ type_name question
                               ++ "' object has no attribute 'strip'"))
              (after_call w (files w) [])
    end.
Proof.
  unfold record_feedback, bind at 1 2 3.
  cbn [uuid4_str _now_iso uuid_src uuid_draws clock clock_reads files stdout].
  rewrite py_strip_or_empty.
  destruct (or_empty question) as [q|]; [reflexivity|by rewrite after_call_nil].
Qed.

End HandlersOnValues.

(** ** What the handlers keep *)

Section HandlerProperties.

(** X1. [EMAIL_RE.match] accepts exactly the addresses of the shape
    [local@domain.tld] and the same followed by one line feed. *)
Theorem EMAIL_RE_language (s : string) :
  re_match EMAIL_RE s = true
  ↔ ∃ addr, email_shape addr ∧ (s = addr ∨ s = addr ++ LF).
Proof.
  split.
  - intros H. destruct (trailing_space s) eqn:Ht.
    + destruct (space_around_email_matches s (or_intror Ht) H) as (addr & ? & ?).
      exists addr. auto.
    + exists s. split; [|by left].
      apply EMAIL_RE_matches in H
        as (loc & dom & tld & tail & Hloc & Hdom & Htld & Htail & Hs).
      destruct Htail as [->| ->].
      * exists loc, dom, tld. by rewrite app_nil_r in Hs.
      * exfalso. unfold trailing_space in Ht. rewrite Hs in Ht.
        replace (loc ++ "@"%char :: dom ++ "."%char :: tld ++ ["010"%char])%list
          with ((loc ++ "@"%char :: dom ++ "."%char :: tld) ++ ["010"%char])%list
          in Ht by (by rewrite <- !app_assoc, <- !app_comm_cons, <- !app_assoc).
        rewrite rev_unit in Ht. done.
  - intros (addr & Hshape & [->| ->]); [by apply email_shape_matches|].
    destruct Hshape as (loc & dom & tld & ? & ? & ? & Hs).
    apply EMAIL_RE_matches. exists loc, dom, tld, ["010"%char].
    split_and!; try done; [by right|].
    rewrite chars_app, Hs.
    by rewrite <- !app_assoc, <- !app_comm_cons, <- !app_assoc.
Qed.

(** X2. Whatever its arguments, [record_customer_interest] leaves the files
    as they are, or appends to [leads.jsonl] one event whose email has the
    shape [local@domain.tld] and whose name and message have no white space
    at either end, and returns [ok: true] with the identifier and the time
    stamp of that event. *)
Theorem lead_log_gets_only_clean_leads (email name message : pyval) (w : world) :
  files (final_state (record_customer_interest email name message w)) = files w
  ∨ ∃ (a n m : string) (w' : world),
      email_shape a ∧ trimmed n ∧ trimmed m
      ∧ record_customer_interest email name message w
        = Ret (lead_result (next_uuid w) (next_ts w)) w'
      ∧ files w'
        = <["leads.jsonl" :=
              (read_log "leads.jsonl" w
               ++ [lead_event (next_uuid w) (next_ts w) a n m])%list]> (files w).
Proof.
  rewrite record_customer_interest_outcome.
  destruct (or_empty email) as [e|]; [|by left].
  destruct (re_match EMAIL_RE e) eqn:Hm; [|by left].
  destruct (or_empty name) as [n|]; [|by left].
  destruct (or_empty message) as [m|]; [|by left].
  right. exists (strip e), (strip n), (strip m). eexists.
  split_and!; [by apply matched_email_stripped_has_shape|apply strip_trimmed..
              |reflexivity|reflexivity].
Qed.

(** X3. An email that is missing ([None]) or counts as false in another way
    is refused like a malformed one: nothing is raised, nothing is written. *)
Theorem missing_email_is_invalid (email name message : pyval) (w : world) :
  truthy email = false →
  record_customer_interest email name message w
  = Ret (invalid_email_result (next_uuid w) (next_ts w))
        (after_call w (files w)
           [P_lead_invalid (next_ts w) (next_uuid w) email]).
Proof.
  intros H. rewrite record_customer_interest_outcome.
  rewrite (or_empty_falsy email H).
  destruct email as [|b|n|s|l|d]; try (by rewrite re_match_empty).
  cbn in H. apply negb_false_iff, String.eqb_eq in H as ->.
  by rewrite re_match_empty.
Qed.

Lemma missing_email_is_invalid_witness :
  truthy VNone = false
  ∧ record_customer_interest VNone (VStr "Jane") (VStr "hi") w0
    = Ret (invalid_email_result (next_uuid w0) (next_ts w0))
          (after_call w0 (files w0)
             [P_lead_invalid (next_ts w0) (next_uuid w0) VNone]).
Proof.
  split; [reflexivity|].
  apply (missing_email_is_invalid VNone (VStr "Jane") (VStr "hi") w0).
  reflexivity.
Defined.

(** X4. Nothing is deduplicated: the same valid lead given twice is logged
    twice, as two events that differ in identifier and time stamp only. *)
Theorem same_lead_twice_is_logged_twice (email name message : string) (w : world) :
  email_shape email →
  ∃ w1 w2 : world,
    record_customer_interest (VStr email) (VStr name) (VStr message) w
    = Ret (lead_result (uuid_src w (uuid_draws w)) (clock w (clock_reads w))) w1
    ∧ record_customer_interest (VStr email) (VStr name) (VStr message) w1
      = Ret (lead_result (uuid_src w (S (uuid_draws w)))
                         (clock w (S (clock_reads w)))) w2
    ∧ read_log "leads.jsonl" w2
      = (read_log "leads.jsonl" w
         ++ [lead_event (uuid_src w (uuid_draws w)) (clock w (clock_reads w))
                        email (strip name) (strip message);
             lead_event (uuid_src w (S (uuid_draws w)))
                        (clock w (S (clock_reads w)))
                        email (strip name) (strip message)])%list.
Proof.
  intros Hshape. pose proof (email_shape_matches email Hshape) as Hm.
  eexists _, _. split_and!.
  - by apply record_customer_interest_valid.
  - rewrite record_customer_interest_valid by done. reflexivity.
  - rewrite (strip_id email) by (by apply email_shape_trimmed).
    unfold read_log at 1. cbn [after_call files].
    rewrite lookup_insert_eq. cbn [default].
    unfold read_log at 1. cbn [after_call files].
    rewrite lookup_insert_eq. cbn [default].
    unfold id. by rewrite <- app_assoc.
Qed.

Lemma same_lead_twice_is_logged_twice_witness :
  email_shape "a@b.com"
  ∧ ∃ w1 w2 : world,
    record_customer_interest (VStr "a@b.com") (VStr "Jane") (VStr "hi") w0
    = Ret (lead_result (uuid_src w0 (uuid_draws w0)) (clock w0 (clock_reads w0))) w1
    ∧ record_customer_interest (VStr "a@b.com") (VStr "Jane") (VStr "hi") w1
      = Ret (lead_result (uuid_src w0 (S (uuid_draws w0)))
                         (clock w0 (S (clock_reads w0)))) w2
    ∧ read_log "leads.jsonl" w2
      = (read_log "leads.jsonl" w0
         ++ [lead_event (uuid_src w0 (uuid_draws w0)) (clock w0 (clock_reads w0))
                        "a@b.com" (strip "Jane") (strip "hi");
             lead_event (uuid_src w0 (S (uuid_draws w0)))
                        (clock w0 (S (clock_reads w0)))
                        "a@b.com" (strip "Jane") (strip "hi")])%list.
Proof.
  assert (email_shape "a@b.com") as H.
  { exists ["a"%char], ["b"%char], ["c"%char; "o"%char; "m"%char].
    unfold word. split_and!; done. }
  split; [exact H|].
  exact (same_lead_twice_is_logged_twice "a@b.com" "Jane" "hi" w0 H).
Defined.

(** X5. Whatever the question is, [record_feedback] either appends to
    [feedback.jsonl] one event whose question has no white space at either
    end and returns [ok: true], or (for a question that counts as true and
    is no string) raises an [AttributeError] and leaves the files as they
    are. *)
Theorem feedback_log_gets_one_trimmed_question (question : pyval) (w : world) :
  (∃ (q : string) (w' : world),
     trimmed q
     ∧ record_feedback question w
       = Ret (feedback_result (next_uuid w) (next_ts w)) w'
     ∧ files w'
       = <["feedback.jsonl" :=
             (read_log "feedback.jsonl" w
              ++ [feedback_event (next_uuid w) (next_ts w) q])%list]> (files w))
  ∨ (∃ (e : exn) (w' : world),
       truthy question = true ∧ is_str question = false
       ∧ record_feedback question w = Raise e w'
       ∧ class_name e = "AttributeError"
       ∧ files w' = files w).
Proof.
  rewrite record_feedback_outcome.
  destruct (or_empty question) as [q|] eqn:E.
  - left. exists (strip q). eexists.
    split_and!; [apply strip_trimmed|reflexivity|reflexivity].
  - right. eexists _, _. split_and!; try reflexivity.
    + unfold or_empty, py_or in E. by destruct (truthy question).
    + destruct question; try done. by rewrite or_empty_str in E.
Qed.

(** X6. A question that is missing ([None]) or counts as false in another
    way is recorded as the empty question. *)
Theorem missing_question_is_recorded_empty (question : pyval) (w : world) :
  truthy question = false →
  ∃ w' : world,
    record_feedback question w
    = Ret (feedback_result (next_uuid w) (next_ts w)) w'
    ∧ read_log "feedback.jsonl" w'
      = (read_log "feedback.jsonl" w
         ++ [feedback_event (next_uuid w) (next_ts w) ""])%list.
Proof.
  intros H. rewrite record_feedback_outcome, (or_empty_falsy question H).
  assert (match question with VStr s => s | _ => "" end = "") as ->.
  { destruct question; try done. cbn in H.
    by apply negb_false_iff, String.eqb_eq in H. }
  eexists. split; [reflexivity|].
  unfold read_log at 1. cbn [after_call files]. by rewrite lookup_insert_eq.
Qed.

Lemma missing_question_is_recorded_empty_witness :
  truthy VNone = false
  ∧ ∃ w' : world,
    record_feedback VNone w0
    = Ret (feedback_result (next_uuid w0) (next_ts w0)) w'
    ∧ read_log "feedback.jsonl" w'
      = (read_log "feedback.jsonl" w0
         ++ [feedback_event (next_uuid w0) (next_ts w0) ""])%list.
Proof.
  split; [reflexivity|].
  apply (missing_question_is_recorded_empty VNone w0). reflexivity.
Defined.

End HandlerProperties.

(** ** What a tool result tells *)

Section ToolResultProperties.

Lemma call_guarded_outcome fn args w :
  call_guarded fn args w
  = match call_kwargs fn args w with
    | Ret r w' => Ret r w'
    | Raise e w' =>
        if isinstance e "TypeError" then Ret (bad_arguments_result e args) w'
        else if isinstance e "Exception" then Ret (runtime_result e) w'
        else Raise e w'
    end.
Proof. reflexivity. Qed.

Lemma failure_unknown name args : failure_result (unknown_tool_result name args).
Proof. by eexists _, _. Qed.

Lemma failure_bad_arguments e args : failure_result (bad_arguments_result e args).
Proof. by eexists _, _. Qed.

Lemma failure_runtime e : failure_result (runtime_result e).
Proof. by eexists _, _. Qed.

Lemma failure_invalid_email lead_id ts :
  failure_result (invalid_email_result lead_id ts).
Proof. by eexists _, _. Qed.

(** What a call of one of the two handlers gives, once guarded. *)
Lemma guarded_handler_logs_iff_ok fn args w :
  fn = fn_record_customer_interest ∨ fn = fn_record_feedback →
  ∃ r w',
    call_guarded fn args w = Ret r w'
    ∧ ((failure_result r ∧ files w' = files w)
       ∨ (success_result r
          ∧ ∃ path event,
              (path = "leads.jsonl" ∨ path = "feedback.jsonl")
              ∧ files w'
                = <[path := (read_log path w ++ [event])%list]> (files w))).
Proof.
  intros Hfn. rewrite call_guarded_outcome.
  destruct (fits_signature fn args) eqn:Hfit.
  - rewrite call_kwargs_fits by done.
    destruct Hfn as [-> | ->]; cbn [fn_body fn_record_customer_interest
                                     fn_record_feedback].
    + rewrite record_customer_interest_outcome.
      destruct (or_empty (arg args "email")) as [e|].
      2:{ eexists _, _. split; [reflexivity|]. left.
          split; [apply failure_bad_arguments|done]. }
      destruct (re_match EMAIL_RE e).
      2:{ eexists _, _. split; [reflexivity|]. left.
          split; [apply failure_invalid_email|done]. }
      destruct (or_empty (arg args "name")) as [n|].
      2:{ eexists _, _. split; [reflexivity|]. left.
          split; [apply failure_runtime|done]. }
      destruct (or_empty (arg args "message")) as [m|].
      2:{ eexists _, _. split; [reflexivity|]. left.
          split; [apply failure_runtime|done]. }
      eexists _, _. split; [reflexivity|]. right. split; [by eexists|].
      eexists "leads.jsonl", _. split; [by left|reflexivity].
    + rewrite record_feedback_outcome.
      destruct (or_empty (arg args "question")) as [q|].
      2:{ eexists _, _. split; [reflexivity|]. left.
          split; [apply failure_runtime|done]. }
      eexists _, _. split; [reflexivity|]. right. split; [by eexists|].
      eexists "feedback.jsonl", _. split; [by right|reflexivity].
  - destruct (call_kwargs_mismatch fn args w Hfit) as [msg ->].
    eexists _, _. split; [reflexivity|]. left.
    split; [apply failure_bad_arguments|done].
Qed.

(** X7. Every tool call gets a result with the flag [ok], and the flag
    tells what happened to the log: with [ok: false] there is an [error]
    text and no file has changed; with [ok: true] there is no [error] and
    exactly one event was appended, to [leads.jsonl] or to
    [feedback.jsonl]. *)
Theorem tool_result_ok_iff_logged (name : string) (args : pydict) (w : world) :
  ∃ (d : pydict) (w' : world),
    tool_result_of name args w = Ret (VDict d) w'
    ∧ ((dict_get d "ok" = Some (VBool false)
        ∧ (∃ msg, dict_get d "error" = Some (VStr msg))
        ∧ files w' = files w)
       ∨ (dict_get d "ok" = Some (VBool true)
          ∧ dict_get d "error" = None
          ∧ ∃ path event,
              (path = "leads.jsonl" ∨ path = "feedback.jsonl")
              ∧ files w'
                = <[path := (read_log path w ++ [event])%list]> (files w))).
Proof.
  unfold tool_result_of. destruct (TOOLS_MAP !! name) as [fn|] eqn:E.
  - apply TOOLS_MAP_lookup in E.
    destruct (guarded_handler_logs_iff_ok fn args w E) as (r & w' & -> & H).
    destruct H as [[(d & msg & -> & ? & ?) ?]|[(d & -> & ? & ?) ?]].
    + exists d, w'. split; [done|]. left. eauto.
    + exists d, w'. split; [done|]. right. eauto.
  - eexists _, w. split; [reflexivity|]. left. split_and!; [done|by eexists|done].
Qed.

Lemma conforming_arg (args : pydict) (p : string) :
  forallb (fun kv => is_str (snd kv)) args = true →
  mem p (dict_keys args) = true →
  ∃ s, arg args p = VStr s.
Proof.
  intros Hstr Hin. unfold arg, dict_get.
  induction args as [|[k v] args IH]; [done|].
  cbn in Hstr, Hin |- *. apply andb_prop in Hstr as [Hv Hstr].
  destruct (String.eqb k p) eqn:Hk.
  - cbn. destruct v; try done. by eexists.
  - apply IH; [done|]. rewrite String.eqb_sym, Hk in Hin. exact Hin.
Qed.

(** X8. The declarations given to the model and the registry agree: a call
    that follows a declaration of [get_function_declarations] (arguments
    among the declared properties, the required ones present, strings for
    values) is never answered with [unknown_tool], [bad_arguments] or
    [runtime]; it is recorded with [ok: true], or refused as an invalid
    email. *)
Theorem declared_call_is_served (d : declaration) (args : pydict) (w : world) :
  d ∈ get_function_declarations →
  conforms d args = true →
  ∃ (r : pyval) (w' : world),
    tool_result_of (decl_name d) args w = Ret r w'
    ∧ (r = lead_result (next_uuid w) (next_ts w)
       ∨ r = feedback_result (next_uuid w) (next_ts w)
       ∨ r = invalid_email_result (next_uuid w) (next_ts w)).
Proof.
  intros Hd Hc. unfold conforms in Hc.
  apply andb_prop in Hc as [Hc Hstr]. apply andb_prop in Hc as [Hkeys Hreq].
  unfold get_function_declarations in Hd.
  apply elem_of_cons in Hd as [-> | Hd]; [|apply elem_of_cons in Hd as [-> | Hd]].
  - cbn [decl_name decl_properties decl_required map fst] in *.
    unfold tool_result_of.
    replace (TOOLS_MAP !! "record_customer_interest")
      with (Some fn_record_customer_interest) by reflexivity.
    rewrite call_guarded_outcome, call_kwargs_fits.
    2:{ unfold fits_signature. cbn [fn_params fn_record_customer_interest].
        by rewrite Hkeys, Hreq. }
    cbn [fn_body fn_record_customer_interest].
    rewrite record_customer_interest_outcome.
    cbn [forallb] in Hreq.
    apply andb_prop in Hreq as [He Hreq]. apply andb_prop in Hreq as [Hn Hreq].
    apply andb_prop in Hreq as [Hm _].
    destruct (conforming_arg args "email" Hstr He) as [e ->].
    destruct (conforming_arg args "name" Hstr Hn) as [n ->].
    destruct (conforming_arg args "message" Hstr Hm) as [m ->].
    rewrite !or_empty_str.
    destruct (re_match EMAIL_RE e); eexists _, _; (split; [reflexivity|]); auto.
  - cbn [decl_name decl_properties decl_required map fst] in *.
    unfold tool_result_of.
    replace (TOOLS_MAP !! "record_feedback")
      with (Some fn_record_feedback) by reflexivity.
    rewrite call_guarded_outcome, call_kwargs_fits.
    2:{ unfold fits_signature. cbn [fn_params fn_record_feedback].
        by rewrite Hkeys, Hreq. }
    cbn [fn_body fn_record_feedback].
    rewrite record_feedback_outcome.
    cbn [forallb] in Hreq. apply andb_prop in Hreq as [Hq _].
    destruct (conforming_arg args "question" Hstr Hq) as [q ->].
    rewrite or_empty_str. eexists _, _. split; [reflexivity|]. auto.
  - by apply elem_of_nil in Hd.
Qed.

Lemma declared_call_is_served_witness :
  mkDecl "record_feedback"
     ("Use when the question is not answered by the provided SUMMARY/PDF or confidence is low. "
      ++ "Do NOT guess. Pass the user's exact question.")
     "OBJECT"
     [("question", ("STRING", "The user question the bot failed to answer."))]
     ["question"] ∈ get_function_declarations
  ∧ conforms
      (mkDecl "record_feedback"
         ("Use when the question is not answered by the provided SUMMARY/PDF or confidence is low. "
          ++ "Do NOT guess. Pass the user's exact question.")
         "OBJECT"
         [("question", ("STRING", "The user question the bot failed to answer."))]
         ["question"])
      [("question", VStr "Do you edit scripts?")] = true
  ∧ ∃ (r : pyval) (w' : world),
    tool_result_of "record_feedback" [("question", VStr "Do you edit scripts?")] w0
    = Ret r w'
    ∧ (r = lead_result (next_uuid w0) (next_ts w0)
       ∨ r = feedback_result (next_uuid w0) (next_ts w0)
       ∨ r = invalid_email_result (next_uuid w0) (next_ts w0)).
Proof.
  assert (mkDecl "record_feedback"
     ("Use when the question is not answered by the provided SUMMARY/PDF or confidence is low. "
      ++ "Do NOT guess. Pass the user's exact question.")
     "OBJECT"
     [("question", ("STRING", "The user question the bot failed to answer."))]
     ["question"] ∈ get_function_declarations) as Hd.
  { unfold get_function_declarations. apply elem_of_cons. right.
    apply elem_of_cons. by left. }
  split; [exact Hd|]. split; [reflexivity|].
  exact (declared_call_is_served _ [("question", VStr "Do you edit scripts?")]
           w0 Hd eq_refl).
Defined.

End ToolResultProperties.

(** ** What an exchange keeps *)

Section ExchangeInvariants.

Lemma world_le_refl w : world_le w w.
Proof. unfold world_le. split_and!; done. Qed.

Lemma world_le_trans w1 w2 w3 : world_le w1 w2 → world_le w2 w3 → world_le w1 w3.
Proof.
  intros (? & ? & ? & ? & Hl1 & Ho1 & Hs1) (? & ? & ? & ? & Hl2 & Ho2 & Hs2).
  unfold world_le. split_and!; try congruence; try lia.
  - intros path. transitivity (read_log path w2); [apply Hl1|apply Hl2].
  - intros path ? ?. rewrite Ho2, Ho1; done.
  - by transitivity (stdout w2).
Qed.

Lemma read_log_after_insert path event p w out :
  read_log p (after_call w
                (<[path := (read_log path w ++ [event])%list]> (files w)) out)
  = if decide (path = p) then (read_log p w ++ [event])%list else read_log p w.
Proof.
  unfold read_log at 1. cbn [after_call files]. rewrite lookup_insert.
  destruct (decide (path = p)) as [->|]; done.
Qed.

Lemma world_le_after_call w fs out :
  fs = files w
  ∨ (∃ path event, (path = "leads.jsonl" ∨ path = "feedback.jsonl")
                   ∧ fs = <[path := (read_log path w ++ [event])%list]> (files w)) →
  world_le w (after_call w fs out).
Proof.
  intros Hfs. unfold world_le. cbn [after_call uuid_src clock uuid_draws
                                    clock_reads stdout files].
  split_and!; try done; try lia.
  - intros p. destruct Hfs as [->|(path & event & _ & ->)]; [done|].
    rewrite read_log_after_insert. destruct (decide (path = p)); [|done].
    by apply prefix_app_r.
  - intros p Hl Hf. destruct Hfs as [->|(path & event & Hp & ->)]; [done|].
    apply lookup_insert_ne. destruct Hp; congruence.
  - by apply prefix_app_r.
Qed.

Lemma record_customer_interest_moves_on email name message w :
  world_le w (final_state (record_customer_interest email name message w)).
Proof.
  rewrite record_customer_interest_outcome.
  repeat match goal with |- context [match ?x with _ => _ end] => destruct x end;
    cbn [final_state]; apply world_le_after_call; eauto 10.
Qed.

Lemma record_feedback_moves_on question w :
  world_le w (final_state (record_feedback question w)).
Proof.
  rewrite record_feedback_outcome.
  destruct (or_empty question); cbn [final_state];
    apply world_le_after_call; eauto 10.
Qed.

Lemma tool_result_of_moves_on name args w :
  world_le w (final_state (tool_result_of name args w)).
Proof.
  unfold tool_result_of. destruct (TOOLS_MAP !! name) as [fn|] eqn:E;
    [|apply world_le_refl].
  rewrite call_guarded_outcome.
  assert (world_le w (final_state (call_kwargs fn args w))) as H.
  { destruct (fits_signature fn args) eqn:Hfit.
    - rewrite call_kwargs_fits by done.
      apply TOOLS_MAP_lookup in E as [-> | ->]; cbn [fn_body
        fn_record_customer_interest fn_record_feedback].
      + apply record_customer_interest_moves_on.
      + apply record_feedback_moves_on.
    - destruct (call_kwargs_mismatch fn args w Hfit) as [msg ->].
      apply world_le_refl. }
  destruct (call_kwargs fn args w) as [r w'|e w']; [exact H|].
  destruct (isinstance e "TypeError"); [exact H|].
  destruct (isinstance e "Exception"); exact H.
Qed.

Lemma state_le_refl st : state_le st st.
Proof. unfold state_le. split_and!; [done|done|apply world_le_refl]. Qed.

Lemma state_le_trans st1 st2 st3 :
  state_le st1 st2 → state_le st2 st3 → state_le st1 st3.
Proof.
  intros (? & ? & ?) (? & ? & ?). unfold state_le.
  split_and!; [by transitivity (history (fst st2))|congruence
              |by eapply world_le_trans].
Qed.

Lemma for_parts_moves_on ps : ∀ called_any resp st,
  state_le st (final_state (for_parts ps called_any resp st)).
Proof.
  induction ps as [|p ps IH]; intros called_any resp [c w];
    [apply state_le_refl|].
  destruct (part_function_call p) as [fc|] eqn:Hp.
  - rewrite (for_parts_call p fc) by done.
    pose proof (tool_result_of_moves_on (fc_name fc) (default [] (fc_args fc)) w)
      as Hw.
    destruct (tool_result_of _ _ w) as [tr w1|e w1]; cbn [final_state] in Hw.
    + destruct (remote c _) as [answer|e].
      * eapply state_le_trans; [|apply IH].
        unfold state_le. cbn [fst snd history remote].
        split_and!; [by apply prefix_app_r|done|done].
      * unfold state_le. by cbn.
    + unfold state_le. by cbn.
  - rewrite for_parts_skip by done. apply IH.
Qed.

Lemma run_tools_moves_on fuel : ∀ resp st o,
  _run_tools_if_any fuel resp st = Some o → state_le st (final_state o).
Proof.
  induction fuel as [|fuel IH]; intros resp st o H; [done|].
  cbn [_run_tools_if_any] in H. unfold first_parts in H.
  destruct (candidates resp) as [|cand cs].
  { injection H as <-. apply state_le_refl. }
  unfold ret in H.
  pose proof (for_parts_moves_on (default [] (parts (cand_content cand)))
                false resp st) as Hf.
  destruct (for_parts _ _ _ st) as [[called_any resp'] st1|e st1];
    cbn [final_state] in Hf.
  - destruct called_any; cbn [negb] in H.
    + eapply state_le_trans; [exact Hf|]. by eapply IH.
    + by injection H as <-.
  - by injection H as <-.
Qed.

Lemma ask_moves_on fuel user_text st o :
  ask fuel user_text st = Some o → state_le st (final_state o).
Proof.
  destruct st as [c w]. unfold ask, in_chat, send_message. cbn [fst snd].
  destruct (remote c _) as [r0|e0].
  2:{ intros [= <-]. apply state_le_refl. }
  intros H.
  assert (state_le (c, w)
            (mkChat (history c ++ [Sent (MText user_text); Received r0])%list
                    (remote c), w)) as H0.
  { unfold state_le. cbn [fst snd history remote].
    split_and!; [by apply prefix_app_r|done|apply world_le_refl]. }
  destruct (_run_tools_if_any fuel r0 _) as [[final st2|e st2]|] eqn:Hrun;
    [| |done].
  - pose proof (run_tools_moves_on _ _ _ _ Hrun) as H1. cbn [final_state] in H1.
    pose proof (state_le_trans _ _ _ H0 H1) as H2.
    destruct (text final) as [t|e]; [by injection H as <-|].
    destruct (isinstance e "Exception"); [|by injection H as <-].
    destruct (candidates final) as [|cand cs]; [by injection H as <-|].
    destruct (parts (cand_content cand)); by injection H as <-.
  - pose proof (run_tools_moves_on _ _ _ _ Hrun) as H1. cbn [final_state] in H1.
    injection H as <-. by eapply state_le_trans.
Qed.

(** X9. However [ask] ends, with a text or with an error, the history of
    the session has only grown (the turns it had are still its first turns)
    and the session talks to the same model. *)
Theorem ask_history_only_grows
    (fuel : nat) (user_text : string) (c : chat) (w : world) :
  match ask fuel user_text (c, w) with
  | Some o =>
      history c `prefix_of` history (fst (final_state o))
      ∧ remote (fst (final_state o)) = remote c
  | None => True
  end.
Proof.
  destruct (ask fuel user_text (c, w)) as [o|] eqn:H; [|done].
  apply ask_moves_on in H as (? & ? & _). done.
Qed.

(** X10. However [ask] ends, the log is only appended to: every file of the
    log directory still starts with the lines it had, and files other than
    [leads.jsonl] and [feedback.jsonl] are untouched. *)
Theorem ask_logs_only_grow
    (fuel : nat) (user_text : string) (c : chat) (w : world) :
  match ask fuel user_text (c, w) with
  | Some o =>
      (∀ path, read_log path w `prefix_of` read_log path (snd (final_state o)))
      ∧ (∀ path, path ≠ "leads.jsonl" → path ≠ "feedback.jsonl" →
                 files (snd (final_state o)) !! path = files w !! path)
  | None => True
  end.
Proof.
  destruct (ask fuel user_text (c, w)) as [o|] eqn:H; [|done].
  apply ask_moves_on in H as (_ & _ & (_ & _ & _ & _ & ? & ? & _)). done.
Qed.

End ExchangeInvariants.

(** ** How an exchange ends *)

Section ExchangeEnds.

Lemma for_parts_first_call ps : ∀ fc calls called_any resp c w,
  calls_of_parts ps = fc :: calls →
  ∃ ps', calls_of_parts ps' = calls
    ∧ for_parts ps called_any resp (c, w)
      = match tool_result_of (fc_name fc) (default [] (fc_args fc)) w with
        | Ret tool_result w1 =>
            match remote c (history c
                            ++ [Sent (tool_message (fc_name fc) tool_result)])%list with
            | Reply answer =>
                for_parts ps' true answer
                  (mkChat (history c
                           ++ [Sent (tool_message (fc_name fc) tool_result);
                               Received answer])%list (remote c), w1)
            | TransportError e => Raise e (c, w1)
            end
        | Raise e w1 => Raise e (c, w1)
        end.
Proof.
  induction ps as [|p ps IH]; intros fc calls called_any resp c w H; [done|].
  unfold calls_of_parts in H. cbn [omap list_omap] in H.
  destruct (part_function_call p) as [fc'|] eqn:Hp.
  - injection H as -> H. exists ps. split; [done|]. by apply for_parts_call.
  - rewrite for_parts_skip by done. by apply IH.
Qed.

Lemma for_parts_last_reply ps : ∀ called_any resp c w called_any' resp' c' w',
  for_parts ps called_any resp (c, w) = Ret (called_any', resp') (c', w') →
  calls_of_parts ps ≠ [] →
  ∃ h, remote c h = Reply resp'.
Proof.
  induction ps as [|p ps IH];
    intros called_any resp c w called_any' resp' c' w' H Hne; [done|].
  destruct (part_function_call p) as [fc|] eqn:Hp.
  - rewrite (for_parts_call p fc) in H by done.
    destruct (tool_result_of _ _ w) as [tr w1|e w1]; [|done].
    destruct (remote c _) as [answer|e] eqn:Ha; [|done].
    destruct (calls_of_parts ps) as [|fc' calls] eqn:Hcalls.
    + rewrite for_parts_no_calls in H by done. injection H as _ <- _ _. eauto.
    + apply IH in H; [exact H|]. by rewrite ?Hcalls.
  - rewrite for_parts_skip in H by done.
    unfold calls_of_parts in Hne. cbn [omap list_omap] in Hne. rewrite Hp in Hne.
    by eapply IH.
Qed.

Lemma run_tools_never_ends fuel : ∀ resp c w,
  (∀ h, ∃ r, remote c h = Reply r) →
  (∀ h r, remote c h = Reply r → response_calls r ≠ []) →
  response_calls resp ≠ [] →
  _run_tools_if_any fuel resp (c, w) = None.
Proof.
  induction fuel as [|fuel IH]; intros resp c w Hr Hcalls Hresp; [done|].
  rewrite run_tools_round by (by apply response_calls_candidates).
  destruct (for_parts_returns (response_parts resp) false resp c w Hr)
    as (called_any' & resp' & c' & w' & H).
  rewrite H.
  destruct (for_parts_serves _ _ _ _ _ _ _ _ _ H) as (_ & Hrem & Hca & _).
  destruct (for_parts_last_reply _ _ _ _ _ _ _ _ _ H Hresp) as [h Hh].
  fold (response_calls resp) in Hca.
  destruct (response_calls resp); [done|]. subst called_any'. cbn [negb].
  apply IH.
  - intros h'. rewrite Hrem. apply Hr.
  - intros h' r. rewrite Hrem. apply Hcalls.
  - by eapply Hcalls.
Qed.

(** X11. The loop has no cap: with a model that answers every message with a
    response that holds a tool call, [ask] neither returns nor raises,
    however many rounds it is given. *)
Theorem ask_never_ends_when_model_keeps_calling
    (user_text : string) (c : chat) (w : world) :
  (∀ h, ∃ r, remote c h = Reply r ∧ response_calls r ≠ []) →
  ∀ fuel, ask fuel user_text (c, w) = None.
Proof.
  intros Hr fuel. unfold ask, in_chat, send_message. cbn [fst snd].
  destruct (Hr (history c ++ [Sent (MText user_text)])%list) as (r0 & -> & Hr0).
  rewrite run_tools_never_ends; [done| | |done]; cbn [remote].
  - intros h. destruct (Hr h) as (r & ? & _). eauto.
  - intros h r Hh. destruct (Hr h) as (r' & Hh' & ?). congruence.
Qed.

Lemma ask_never_ends_when_model_keeps_calling_witness :
  (∀ h, ∃ r, remote (mkChat [] always_calls) h = Reply r ∧ response_calls r ≠ [])
  ∧ ∀ fuel, ask fuel "hello" (mkChat [] always_calls, w0) = None.
Proof.
  assert (∀ h, ∃ r, remote (mkChat [] always_calls) h = Reply r
                    ∧ response_calls r ≠ []) as H.
  { intros h. exists one_call_answer. split; [reflexivity|discriminate]. }
  split; [exact H|].
  exact (ask_never_ends_when_model_keeps_calling "hello"
           (mkChat [] always_calls) w0 H).
Defined.

(** X12. An answer without a tool call ends the exchange at once: [ask]
    returns its text after one round, the history has grown by the message
    and the answer, and nothing else has changed: no tool ran. *)
Theorem plain_answer_is_returned_at_once
    (fuel : nat) (user_text : string) (c : chat) (w : world)
    (r : response) (t : string) :
  remote c (history c ++ [Sent (MText user_text)])%list = Reply r →
  candidates r ≠ [] →
  response_calls r = [] →
  text r = Has t →
  (1 ≤ fuel)%nat →
  ask fuel user_text (c, w)
  = Some (Ret t (mkChat (history c ++ [Sent (MText user_text); Received r])%list
                        (remote c), w)).
Proof.
  intros Hr Hcand Hcalls Ht Hfuel. destruct fuel as [|fuel]; [lia|].
  unfold ask. rewrite (ask_sends _ _ _ r) by done.
  rewrite run_tools_round by done.
  rewrite for_parts_no_calls by done. cbn [negb]. by rewrite Ht.
Qed.

Lemma plain_answer_is_returned_at_once_witness :
  remote (mkChat [] (scripted [thanks_answer])) ([] ++ [Sent (MText "hello")])%list
  = Reply thanks_answer
  ∧ candidates thanks_answer ≠ []
  ∧ response_calls thanks_answer = []
  ∧ text thanks_answer = Has "Thank you Jane, we will be in touch."
  ∧ (1 ≤ 1)%nat
  ∧ ask 1 "hello" (mkChat [] (scripted [thanks_answer]), w0)
    = Some (Ret "Thank you Jane, we will be in touch."
              (mkChat ([] ++ [Sent (MText "hello"); Received thanks_answer])%list
                      (scripted [thanks_answer]), w0)).
Proof.
  split_and!; [reflexivity|done|reflexivity|reflexivity|lia|].
  apply (plain_answer_is_returned_at_once 1 "hello"
           (mkChat [] (scripted [thanks_answer])) w0 thanks_answer
           "Thank you Jane, we will be in touch.");
    [reflexivity|done|reflexivity|reflexivity|lia].
Defined.

(** X13. When the transport fails on the message that carries a tool result,
    [ask] raises that error; what the tool did stays done (the world is the
    one the handler left) and the history ends with the answer that holds
    the call, without a result for it. *)
Theorem lost_tool_result_leaves_call_unanswered
    (fuel : nat) (user_text : string) (c : chat) (w w1 : world)
    (r0 : response) (fc : function_call) (calls : list function_call)
    (tool_result : pyval) (e : exn) :
  remote c (history c ++ [Sent (MText user_text)])%list = Reply r0 →
  response_calls r0 = fc :: calls →
  tool_result_of (fc_name fc) (default [] (fc_args fc)) w = Ret tool_result w1 →
  remote c (history c ++ [Sent (MText user_text); Received r0;
                          Sent (tool_message (fc_name fc) tool_result)])%list
  = TransportError e →
  (1 ≤ fuel)%nat →
  ask fuel user_text (c, w)
  = Some (Raise e (mkChat (history c ++ [Sent (MText user_text); Received r0])%list
                          (remote c), w1)).
Proof.
  intros Hr Hcalls Htool Hdown Hfuel. destruct fuel as [|fuel]; [lia|].
  unfold ask. rewrite (ask_sends _ _ _ r0) by done.
  rewrite run_tools_round
    by (apply response_calls_candidates; by rewrite Hcalls).
  destruct (for_parts_first_call (response_parts r0) fc calls false r0
              (mkChat (history c ++ [Sent (MText user_text); Received r0])%list
                      (remote c)) w Hcalls) as (ps' & _ & ->).
  rewrite Htool. cbn [history remote]. rewrite <- app_assoc. cbn [app].
  by rewrite Hdown.
Qed.

Lemma lost_tool_result_leaves_call_unanswered_witness :
  remote (mkChat [] (scripted_then_down [one_call_answer]))
         ([] ++ [Sent (MText "hello")])%list
  = Reply one_call_answer
  ∧ response_calls one_call_answer
    = mkCall "record_customer_interest" (Some jane_args) :: []
  ∧ tool_result_of "record_customer_interest" jane_args w0
    = Ret (lead_result "uuid-0" "2025-01-01T00:00:00+00:00")
          (after_call w0
             (<["leads.jsonl" :=
                  [lead_event "uuid-0" "2025-01-01T00:00:00+00:00" "a@b.com"
                              "Jane" "poetry chapbook edit"]]> ∅)
             [P_lead "2025-01-01T00:00:00+00:00" "uuid-0" (VStr "a@b.com") "Jane"
                     ("poetry chapbook edit", false)])
  ∧ remote (mkChat [] (scripted_then_down [one_call_answer]))
           ([] ++ [Sent (MText "hello"); Received one_call_answer;
                   Sent (tool_message "record_customer_interest"
                           (lead_result "uuid-0" "2025-01-01T00:00:00+00:00"))])%list
    = TransportError (ConnectionError "connection lost")
  ∧ (1 ≤ 1)%nat
  ∧ ask 1 "hello" (mkChat [] (scripted_then_down [one_call_answer]), w0)
    = Some (Raise (ConnectionError "connection lost")
              (mkChat ([] ++ [Sent (MText "hello"); Received one_call_answer])%list
                      (scripted_then_down [one_call_answer]),
               after_call w0
                 (<["leads.jsonl" :=
                      [lead_event "uuid-0" "2025-01-01T00:00:00+00:00" "a@b.com"
                                  "Jane" "poetry chapbook edit"]]> ∅)
                 [P_lead "2025-01-01T00:00:00+00:00" "uuid-0" (VStr "a@b.com")
                         "Jane" ("poetry chapbook edit", false)])).
Proof.
  split_and!; [reflexivity|reflexivity|reflexivity|reflexivity|lia|].
  apply (lost_tool_result_leaves_call_unanswered 1 "hello"
           (mkChat [] (scripted_then_down [one_call_answer])) w0 _
           one_call_answer (mkCall "record_customer_interest" (Some jane_args)) []
           (lead_result "uuid-0" "2025-01-01T00:00:00+00:00")
           (ConnectionError "connection lost"));
    [reflexivity|reflexivity|reflexivity|reflexivity|lia].
Defined.

(** X14. An answer that holds no candidate makes [ask] raise an
    [IndexError] right after the answer was received: no tool ran and the
    world is as it was. *)
Theorem answer_without_candidate_raises
    (fuel : nat) (user_text : string) (c : chat) (w : world) (r : response) :
  remote c (history c ++ [Sent (MText user_text)])%list = Reply r →
  candidates r = [] →
  (1 ≤ fuel)%nat →
  ask fuel user_text (c, w)
  = Some (Raise (IndexError "list index out of range")
            (mkChat (history c ++ [Sent (MText user_text); Received r])%list
                    (remote c), w)).
Proof.
  intros Hr Hcand Hfuel. destruct fuel as [|fuel]; [lia|].
  unfold ask. rewrite (ask_sends _ _ _ r) by done.
  cbn [_run_tools_if_any]. unfold first_parts. by rewrite Hcand.
Qed.

Lemma answer_without_candidate_raises_witness :
  remote (mkChat [] (scripted [blocked_answer])) ([] ++ [Sent (MText "hello")])%list
  = Reply blocked_answer
  ∧ candidates blocked_answer = []
  ∧ (1 ≤ 1)%nat
  ∧ ask 1 "hello" (mkChat [] (scripted [blocked_answer]), w0)
    = Some (Raise (IndexError "list index out of range")
              (mkChat ([] ++ [Sent (MText "hello"); Received blocked_answer])%list
                      (scripted [blocked_answer]), w0)).
Proof.
  split_and!; [reflexivity|reflexivity|lia|].
  apply (answer_without_candidate_raises 1 "hello"
           (mkChat [] (scripted [blocked_answer])) w0 blocked_answer);
    [reflexivity|reflexivity|lia].
Defined.

End ExchangeEnds.

(** ** The chat window and the command line *)

Section WindowAndCli.

Lemma ask_transport_down fuel user_text c w e :
  remote c (history c ++ [Sent (MText user_text)])%list = TransportError e →
  ask fuel user_text (c, w) = Some (Raise e (c, w)).
Proof.
  intros H. unfold ask, in_chat, send_message. cbn [fst snd]. by rewrite H.
Qed.

(** X15. [on_send] lets no [Exception] out and always shows two more
    entries: whenever it returns, the text box is cleared and the window
    holds what it held, then the message of the user, then one entry of the
    assistant; what it raises, if anything, is no instance of
    [Exception]. *)
Theorem on_send_shields_the_window
    (dash : string) (fuel : nat) (message : string)
    (window : option (list pydict)) (st : state) :
  match on_send dash fuel message window st with
  | Some (Ret (shown, box) _) =>
      box = ""
      ∧ ∃ reply, shown = (default [] window
                          ++ [[("role", VStr "user"); ("content", VStr message)];
                              [("role", VStr "assistant"); ("content", VStr reply)]])%list
  | Some (Raise e _) => isinstance e "Exception" = false
  | None => True
  end.
Proof.
  unfold on_send. destruct (ask fuel message st) as [[reply st'|e st']|]; [| |done].
  - split; [done|]. by exists reply.
  - destruct (isinstance e "Exception") eqn:E; [|done].
    split; [done|]. by eexists.
Qed.

(** X16. When the transport fails on the message of the user, [on_send]
    shows the apology with the text of the error, and the session and the
    world are as before: the message can be sent again. *)
Theorem on_send_apologises_when_transport_fails
    (dash : string) (fuel : nat) (message : string)
    (window : option (list pydict)) (c : chat) (w : world) (e : exn) :
  remote c (history c ++ [Sent (MText message)])%list = TransportError e →
  isinstance e "Exception" = true →
  on_send dash fuel message window (c, w)
  = Some (Ret ((default [] window
                ++ [[("role", VStr "user"); ("content", VStr message)];
                    [("role", VStr "assistant");
                     ("content", VStr ("Sorry" ++ dash ++ "something went wrong: "
                                       ++ exn_str e))]])%list, "")
            (c, w)).
Proof.
  intros Hdown He. unfold on_send. rewrite (ask_transport_down _ _ _ _ e) by done.
  by rewrite He.
Qed.

Lemma on_send_apologises_when_transport_fails_witness :
  remote (mkChat [] (scripted_then_down [])) ([] ++ [Sent (MText "hello")])%list
  = TransportError (ConnectionError "connection lost")
  ∧ isinstance (ConnectionError "connection lost") "Exception" = true
  ∧ on_send "--" 1 "hello" None (mkChat [] (scripted_then_down []), w0)
    = Some (Ret ((default [] None
                  ++ [[("role", VStr "user"); ("content", VStr "hello")];
                      [("role", VStr "assistant");
                       ("content", VStr ("Sorry" ++ "--" ++ "something went wrong: "
                                         ++ exn_str (ConnectionError "connection lost")))]])%list,
                 "")
              (mkChat [] (scripted_then_down []), w0)).
Proof.
  split; [reflexivity|]. split; [reflexivity|].
  apply (on_send_apologises_when_transport_fails "--" 1 "hello" None
           (mkChat [] (scripted_then_down [])) w0
           (ConnectionError "connection lost")); reflexivity.
Defined.

Lemma user_texts_app h1 h2 :
  user_texts (h1 ++ h2) = (user_texts h1 ++ user_texts h2)%list.
Proof. unfold user_texts. apply omap_app. Qed.

Lemma for_parts_user_texts ps : ∀ called_any resp st,
  user_texts (history (fst (final_state (for_parts ps called_any resp st))))
  = user_texts (history (fst st)).
Proof.
  induction ps as [|p ps IH]; intros called_any resp [c w]; [done|].
  destruct (part_function_call p) as [fc|] eqn:Hp.
  - rewrite (for_parts_call p fc) by done.
    destruct (tool_result_of _ _ w) as [tr w1|e w1]; [|done].
    destruct (remote c _) as [answer|e]; [|done].
    rewrite IH. cbn [fst history]. rewrite user_texts_app. cbn.
    apply app_nil_r.
  - rewrite for_parts_skip by done. apply IH.
Qed.

Lemma run_tools_user_texts fuel : ∀ resp st o,
  _run_tools_if_any fuel resp st = Some o →
  user_texts (history (fst (final_state o))) = user_texts (history (fst st)).
Proof.
  induction fuel as [|fuel IH]; intros resp st o H; [done|].
  cbn [_run_tools_if_any] in H. unfold first_parts in H.
  destruct (candidates resp) as [|cand cs]; [by injection H as <-|].
  unfold ret in H.
  pose proof (for_parts_user_texts (default [] (parts (cand_content cand)))
                false resp st) as Hf.
  destruct (for_parts _ _ _ st) as [[called_any resp'] st1|e st1];
    cbn [final_state] in Hf.
  - destruct called_any; cbn [negb] in H.
    + apply IH in H. congruence.
    + by injection H as <-.
  - by injection H as <-.
Qed.

(** When [ask] returns, the history holds one more text of the user: the
    one it was given. *)
Lemma ask_user_texts fuel user_text st reply st' :
  ask fuel user_text st = Some (Ret reply st') →
  user_texts (history (fst st'))
  = (user_texts (history (fst st)) ++ [user_text])%list.
Proof.
  destruct st as [c w]. unfold ask, in_chat, send_message. cbn [fst snd].
  destruct (remote c _) as [r0|e0]; [|done].
  destruct (_run_tools_if_any fuel r0 _) as [[final st2|e st2]|] eqn:Hrun;
    [| |done]; [|done].
  apply run_tools_user_texts in Hrun. cbn [final_state fst history] in Hrun.
  rewrite user_texts_app in Hrun. cbn in Hrun.
  intros H.
  assert (st' = st2) as ->.
  { destruct (text final) as [t|e]; [by injection H|].
    destruct (isinstance e "Exception"); [|done].
    destruct (candidates final) as [|cand cs]; [done|].
    destruct (parts (cand_content cand)); [by injection H|done]. }
  exact Hrun.
Qed.

(** X17. The command line stops reading at the first line that is empty
    once stripped, or that says [exit] or [quit] in any mix of capitals:
    the lines after it change nothing. *)
Theorem cli_stops_at_stop_line
    (fuel : nat) (before after : list string) (line : string)
    (out : list string) (st : state) :
  is_stop (strip line) = true →
  cli_loop fuel (before ++ line :: after) out st = cli_loop fuel before out st.
Proof.
  intros Hstop. revert out st.
  induction before as [|l before IH]; intros out st.
  - cbn [app cli_loop]. by rewrite Hstop.
  - cbn [app cli_loop]. destruct (is_stop (strip l)); [done|].
    destruct (ask fuel (strip l) st) as [[reply st'|e st']|]; [|done|done].
    apply IH.
Qed.

Lemma cli_stops_at_stop_line_witness :
  is_stop (strip "  Quit ") = true
  ∧ cli_loop 1 (["hello"] ++ "  Quit " :: ["are you there?"])
             [] (mkChat [] (scripted []), w0)
    = cli_loop 1 ["hello"] [] (mkChat [] (scripted []), w0).
Proof.
  split; [reflexivity|].
  apply (cli_stops_at_stop_line 1 ["hello"] ["are you there?"] "  Quit " []
           (mkChat [] (scripted []), w0)).
  reflexivity.
Defined.

Lemma cli_loop_reads fuel lines : ∀ out st st' out',
  cli_loop fuel lines out st = Some (Ret tt (st', out')) →
  user_texts (history (fst st'))
  = (user_texts (history (fst st)) ++ texts_read lines)%list
  ∧ length out' = length out + length (texts_read lines).
Proof.
  induction lines as [|line lines IH]; intros out st st' out' H.
  - injection H as <- <-. cbn. by rewrite app_nil_r, Nat.add_0_r.
  - cbn [cli_loop texts_read] in H |- *.
    destruct (is_stop (strip line)).
    { injection H as <- <-. cbn. by rewrite app_nil_r, Nat.add_0_r. }
    destruct (ask fuel (strip line) st) as [[reply st1|e st1]|] eqn:Hask;
      [|done|done].
    apply IH in H as [Ht Hl]. apply ask_user_texts in Hask.
    rewrite Ht, Hask, <- app_assoc. split; [done|].
    rewrite Hl, length_app. cbn. lia.
Qed.

(** X18. When [run_cli] ends without an error, what it passed to the model
    as texts of the user are the lines it read, each one stripped, in their
    order, up to the first line that stops it, and it printed its banner and
    one reply for each of them. *)
Theorem run_cli_passes_stripped_lines
    (fuel : nat) (lines : list string) (st st' : state) (out : list string) :
  run_cli fuel lines st = Some (Ret tt (st', out)) →
  user_texts (history (fst st'))
  = (user_texts (history (fst st)) ++ texts_read lines)%list
  ∧ length out = S (length (texts_read lines)).
Proof.
  intros H. unfold run_cli in H. apply cli_loop_reads in H as [? ?]. done.
Qed.

Lemma run_cli_passes_stripped_lines_witness :
  run_cli 1 [" hello "; "exit"; "more"] (mkChat [] (scripted [thanks_answer]), w0)
  = Some (Ret tt ((chat_after [thanks_answer] "hello" thanks_answer, w0),
                  ["Type your message (or 'exit'): ";
                   "Thank you Jane, we will be in touch."]))
  ∧ user_texts (history (fst (chat_after [thanks_answer] "hello" thanks_answer, w0)))
    = (user_texts (history (fst (mkChat [] (scripted [thanks_answer]), w0)))
       ++ texts_read [" hello "; "exit"; "more"])%list
  ∧ length ["Type your message (or 'exit'): ";
            "Thank you Jane, we will be in touch."]
    = S (length (texts_read [" hello "; "exit"; "more"])).
Proof.
  split; [reflexivity|].
  apply (run_cli_passes_stripped_lines 1 [" hello "; "exit"; "more"]
           (mkChat [] (scripted [thanks_answer]), w0)
           (chat_after [thanks_answer] "hello" thanks_answer, w0)).
  reflexivity.
Defined.

(** X19. The command line shields nothing: when the transport fails on a
    line, [run_cli] ends with that error; what it had printed and the
    session are as they were before the line. *)
Theorem run_cli_lets_transport_error_through
    (fuel : nat) (line : string) (lines : list string)
    (c : chat) (w : world) (e : exn) :
  is_stop (strip line) = false →
  remote c (history c ++ [Sent (MText (strip line))])%list = TransportError e →
  run_cli fuel (line :: lines) (c, w)
  = Some (Raise e ((c, w), ["Type your message (or 'exit'): "])).
Proof.
  intros Hgo Hdown. unfold run_cli. cbn [cli_loop]. rewrite Hgo.
  by rewrite (ask_transport_down _ _ _ _ e).
Qed.

Lemma run_cli_lets_transport_error_through_witness :
  is_stop (strip "hello") = false
  ∧ remote (mkChat [] (scripted_then_down []))
           ([] ++ [Sent (MText (strip "hello"))])%list
    = TransportError (ConnectionError "connection lost")
  ∧ run_cli 1 ("hello" :: ["exit"]) (mkChat [] (scripted_then_down []), w0)
    = Some (Raise (ConnectionError "connection lost")
              ((mkChat [] (scripted_then_down []), w0),
               ["Type your message (or 'exit'): "])).
Proof.
  split; [reflexivity|]. split; [reflexivity|].
  apply (run_cli_lets_transport_error_through 1 "hello" ["exit"]
           (mkChat [] (scripted_then_down [])) w0
           (ConnectionError "connection lost")); reflexivity.
Defined.

End WindowAndCli.

(** ** The business knowledge *)

Section Knowledge.

Lemma page_texts_quiet pages e :
  page_texts pages = Fails e → isinstance e "Exception" = false.
Proof.
  induction pages as [|page pages IH]; [done|]. cbn [page_texts].
  destruct page as [[t|]|e'].
  - destruct (page_texts pages); [done|]. intros [= <-]. by apply IH.
  - destruct (page_texts pages); [done|]. intros [= <-]. by apply IH.
  - destruct (isinstance e' "Exception") eqn:E.
    + destruct (page_texts pages); [done|]. intros [= <-]. by apply IH.
    + by intros [= <-].
Qed.

Lemma page_texts_of_quiet_pages pages :
  Forall quiet_page pages → ∃ ts, page_texts pages = Has ts.
Proof.
  induction 1 as [|page pages Hp _ [ts IH]]; [by exists []|].
  cbn [page_texts]. rewrite IH. destruct page as [[t|]|e]; cbn in Hp.
  - by eexists.
  - by eexists.
  - rewrite Hp. by eexists.
Qed.

Lemma quiet_pages_of_page_texts pages : ∀ ts,
  page_texts pages = Has ts → Forall quiet_page pages.
Proof.
  induction pages as [|page pages IH]; intros ts; [constructor|].
  cbn [page_texts]. destruct page as [[t|]|e].
  - destruct (page_texts pages) as [ts'|]; [|done].
    intros _. constructor; [done|by eapply IH].
  - destruct (page_texts pages) as [ts'|]; [|done].
    intros _. constructor; [done|by eapply IH].
  - destruct (isinstance e "Exception") eqn:E; [|done].
    destruct (page_texts pages) as [ts'|]; [|done].
    intros _. constructor; [exact E|by eapply IH].
Qed.

(** X20. [read_pdf_text] catches the [Exception]s of [PdfReader] and of
    [extract_text], and those only.  An [Exception] that comes out of it was
    raised by going through [reader.pages], which no [try] covers, the
    pages handed over before having raised nothing but [Exception]s; and
    what going through [reader.pages] raises after such pages does come
    out, whatever it is.  The text that is returned has no white space at
    its start nor at its end. *)
Theorem read_pdf_text_guards_reader_and_pages_only (src : pdf_source) :
  match read_pdf_text src with
  | Has t => trimmed t
  | Fails e =>
      isinstance e "Exception" = true →
      ∃ pages, src = Some (Has (pages, Some e)) ∧ Forall quiet_page pages
  end
  ∧ ∀ pages e,
      src = Some (Has (pages, Some e)) →
      Forall quiet_page pages →
      read_pdf_text src = Fails e.
Proof.
  split.
  - unfold read_pdf_text. destruct src as [[[pages failure]|e]|].
    + destruct (page_texts pages) as [ts|e] eqn:E.
      * destruct failure as [e|]; [|apply strip_trimmed].
        intros _. exists pages. split; [done|by eapply quiet_pages_of_page_texts].
      * intros He. by rewrite (page_texts_quiet pages e E) in He.
    + destruct (isinstance e "Exception") eqn:E; [done|].
      intros He. by rewrite E in He.
    + done.
  - intros pages e -> Hpages. unfold read_pdf_text.
    by destruct (page_texts_of_quiet_pages pages Hpages) as [ts ->].
Qed.

(** X20 on a reader that hands over two pages, the second of them broken,
    and fails then. *)
Lemma read_pdf_text_guards_reader_and_pages_only_witness :
  Forall quiet_page [Has (Some "Rates"); Fails (ValueError "broken page")]
  ∧ read_pdf_text
      (Some (Has ([Has (Some "Rates"); Fails (ValueError "broken page")],
                  Some (ValueError "broken page tree"))))
    = Fails (ValueError "broken page tree").
Proof.
  assert (Forall quiet_page [Has (Some "Rates"); Fails (ValueError "broken page")])
    as H by (repeat constructor).
  split; [exact H|].
  exact (proj2 (read_pdf_text_guards_reader_and_pages_only _) _ _ eq_refl H).
Defined.

(** A reader that hands over its pages and fails at none gives their texts,
    an empty one for a page that is broken or has no text. *)
Example read_pdf_text_joins_the_pages :
  read_pdf_text
    (Some (Has ([Has (Some " Rates"); Fails (ValueError "broken page");
                 Has None; Has (Some "Contracts ")], None)))
  = Has ("Rates" ++ LF ++ LF ++ LF ++ "Contracts").
Proof. reflexivity. Qed.

Lemma lstrip_spaces l : forallb isspace l = true → lstrip l = [].
Proof.
  induction l as [|c l IH]; [done|]. cbn [forallb lstrip].
  intros [-> ?]%andb_prop. auto.
Qed.

Lemma strip_spaces s : forallb isspace (chars s) = true → strip s = "".
Proof.
  intros H. unfold strip, strip_chars. rewrite (lstrip_spaces _ H). reflexivity.
Qed.

Lemma page_texts_no_text pages :
  Forall no_text pages → page_texts pages = Has (repeat "" (length pages)).
Proof.
  induction 1 as [|page pages Hp _ IH]; [done|]. cbn [page_texts length repeat].
  rewrite IH. destruct page as [[t|]|e]; cbn in Hp.
  - by subst.
  - done.
  - by rewrite Hp.
Qed.

Lemma concat_empty_lines n :
  forallb isspace (chars (String.concat LF (repeat "" n))) = true.
Proof.
  induction n as [|[|n] IH]; [done|done|].
  change (repeat "" (S (S n))) with ("" :: repeat "" (S n)).
  change (String.concat LF ("" :: repeat "" (S n)))
    with ("" ++ LF ++ String.concat LF (repeat "" (S n))).
  rewrite !chars_app, !forallb_app, IH. done.
Qed.

(** X21. A PDF none of whose pages gives a text (a scan, say), and whose
    pages are gone through without an error, reads as the empty text,
    however many pages it has. *)
Theorem pdf_without_text_reads_empty (pages : list pdf_page) :
  Forall no_text pages →
  read_pdf_text (Some (Has (pages, None))) = Has "".
Proof.
  intros H. unfold read_pdf_text. rewrite (page_texts_no_text pages H).
  rewrite strip_spaces; [done|apply concat_empty_lines].
Qed.

Lemma pdf_without_text_reads_empty_witness :
  Forall no_text [Has None; Has (Some ""); Fails (ValueError "broken page")]
  ∧ read_pdf_text (Some (Has ([Has None; Has (Some "");
                               Fails (ValueError "broken page")], None)))
    = Has "".
Proof.
  assert (Forall no_text [Has None; Has (Some ""); Fails (ValueError "broken page")])
    as H by (repeat constructor).
  split; [exact H|]. exact (pdf_without_text_reads_empty _ H).
Defined.

Lemma length_append s1 s2 :
  String.length (s1 ++ s2) = String.length s1 + String.length s2.
Proof.
  induction s1 as [|c s1 IH]; [done|].
  change (String c s1 ++ s2) with (String c (s1 ++ s2)). cbn. by rewrite IH.
Qed.

Lemma length_substring_0 n : ∀ s,
  String.length (substring 0 n s) = Nat.min n (String.length s).
Proof.
  induction n as [|n IH]; intros [|c s]; cbn; [done|done|done|].
  by rewrite IH.
Qed.

Lemma substring_0_append n : ∀ s t,
  (n ≤ String.length s)%nat → substring 0 n (substring 0 n s ++ t) = substring 0 n s.
Proof.
  induction n as [|n IH]; intros [|c s] t Hn; cbn in Hn |- *.
  - destruct t; reflexivity.
  - destruct t; reflexivity.
  - lia.
  - change (String c (substring 0 n s) ++ t)
      with (String c (substring 0 n s ++ t)).
    cbn. rewrite IH; [done|lia].
Qed.

Lemma truncated_bound n s :
  (String.length (truncated n s) ≤ n + 18)%nat
  ∧ substring 0 n (truncated n s) = substring 0 n s
  ∧ ((String.length s ≤ n)%nat → truncated n s = s).
Proof.
  unfold truncated. destruct (n <? String.length s)%nat eqn:E.
  - apply Nat.ltb_lt in E. split_and!.
    + rewrite !length_append, length_substring_0.
      change (String.length LF) with 1. change (String.length "[...truncated...]") with 17.
      lia.
    + apply substring_0_append. lia.
    + lia.
  - apply Nat.ltb_ge in E. split_and!; [lia|done|done].
Qed.

(** X22. The text of the PDF that [load_business_knowledge] returns is never
    longer than [MAX_CHARS] characters and the 18 of the mark; its first
    [MAX_CHARS] characters are those of the text that was read, and a text
    of [MAX_CHARS] characters or fewer is returned whole. *)
Theorem knowledge_text_is_bounded
    (summary_file : option (property string)) (pdf : pdf_source) :
  match snd (load_business_knowledge summary_file pdf) with
  | Has (summary, pdf_text) =>
      (String.length pdf_text ≤ MAX_CHARS + 18)%nat
      ∧ ∃ read, read_pdf_text pdf = Has read
          ∧ substring 0 MAX_CHARS pdf_text = substring 0 MAX_CHARS read
          ∧ ((String.length read ≤ MAX_CHARS)%nat → pdf_text = read)
  | Fails _ => True
  end.
Proof.
  unfold load_business_knowledge.
  destruct summary_file as [[summary|e]|]; [|done|];
    (destruct (read_pdf_text pdf) as [read|e]; [|done]); cbn [snd];
    (destruct (truncated_bound MAX_CHARS read) as (? & ? & ?);
     split; [done|]; by exists read).
Qed.

End Knowledge.

(** ** Exchanges with a sound model *)

Section SoundModel.

Lemma run_tools_final_is_reply fuel : ∀ resp c w final st',
  _run_tools_if_any fuel resp (c, w) = Some (Ret final st') →
  final = resp ∨ ∃ h, remote c h = Reply final.
Proof.
  induction fuel as [|fuel IH]; intros resp c w final st' H; [done|].
  destruct (candidates resp) as [|cand cs] eqn:Hc.
  { cbn in H. unfold first_parts in H. by rewrite Hc in H. }
  rewrite run_tools_round in H by (by rewrite Hc).
  destruct (for_parts _ _ _ (c, w)) as [[called_any resp'] [c1 w1]|e st1] eqn:Hf;
    [|done].
  destruct (for_parts_serves _ _ _ _ _ _ _ _ _ Hf) as (_ & Hrem & Hca & _).
  destruct called_any; cbn [negb] in H.
  - destruct (calls_of_parts (response_parts resp)) eqn:Hcalls.
    + rewrite for_parts_no_calls in Hf by done. by injection Hf.
    + destruct (for_parts_last_reply _ _ _ _ _ _ _ _ _ Hf) as [h Hh];
        [by rewrite Hcalls|].
      apply IH in H as [->|[h' Hh']]; right; [eauto|].
      rewrite Hrem in Hh'. eauto.
  - injection H as <- <-.
    destruct (calls_of_parts (response_parts resp)) eqn:Hcalls; [|done].
    rewrite for_parts_no_calls in Hf by done. injection Hf as <- _ _. by left.
Qed.

(** X23. With a model that answers every message, each answer holding a
    candidate and, when it holds no tool call, a text that can be read,
    [ask] never raises: whatever the tool calls are and whatever the
    handlers do with them, it returns a text, or goes on for as many rounds
    as it is given. *)
Theorem ask_never_raises_with_sound_model
    (fuel : nat) (user_text : string) (c : chat) (w : world) :
  (∀ h, ∃ r, remote c h = Reply r ∧ candidates r ≠ []
             ∧ (response_calls r = [] → ∃ t, text r = Has t)) →
  ∀ e st', ask fuel user_text (c, w) ≠ Some (Raise e st').
Proof.
  intros Hr e st' H. unfold ask, in_chat, send_message in H. cbn [fst snd] in H.
  destruct (Hr (history c ++ [Sent (MText user_text)])%list)
    as (r0 & Hr0 & Hc0 & Ht0).
  rewrite Hr0 in H.
  destruct (_run_tools_if_any fuel r0 _) as [[final st2|e2 st2]|] eqn:Hrun;
    [| |done].
  - assert (∃ t, text final = Has t) as [t Ht].
    { destruct (run_tools_final _ _ _ _ _ Hrun) as [_ Hnone].
      apply run_tools_final_is_reply in Hrun as [->|[h Hh]]; [auto|].
      cbn [remote] in Hh. destruct (Hr h) as (r & Hh' & _ & Ht).
      rewrite Hh in Hh'. injection Hh' as ->. auto. }
    by rewrite Ht in H.
  - eapply run_tools_never_raises; [|exact Hc0|exact Hrun].
    cbn [remote]. intros h. destruct (Hr h) as (r & ? & ? & _). eauto.
Qed.

Lemma ask_never_raises_with_sound_model_witness :
  (∀ h, ∃ r, remote (mkChat [] (scripted script_two_calls)) h = Reply r
             ∧ candidates r ≠ []
             ∧ (response_calls r = [] → ∃ t, text r = Has t))
  ∧ ∀ e st', ask 2 "hello" (mkChat [] (scripted script_two_calls), w0)
             ≠ Some (Raise e st').
Proof.
  assert (∀ h, ∃ r, remote (mkChat [] (scripted script_two_calls)) h = Reply r
                    ∧ candidates r ≠ []
                    ∧ (response_calls r = [] → ∃ t, text r = Has t)) as H.
  { intros h. eexists. split; [reflexivity|]. unfold script_two_calls.
    destruct (received h) as [|[|[|n]]]; (split; [done|]);
      first [discriminate | by eexists]. }
  split; [exact H|].
  exact (ask_never_raises_with_sound_model 2 "hello"
           (mkChat [] (scripted script_two_calls)) w0 H).
Defined.

End SoundModel.

(** ** Exchanges with one call at a time *)

Section SingleCalls.

(** X24. When no answer of the model holds more than one tool call, the
    invariant of the history holds for every exchange that [ask] brings to
    its end: in the turns the exchange added, every tool call is followed by
    exactly one result of its name. *)
Theorem ask_answers_every_call_when_calls_come_singly
    (fuel : nat) (user_text : string) (c : chat) (w : world) :
  (∀ h r, remote c h = Reply r → (length (response_calls r) ≤ 1)%nat) →
  match ask fuel user_text (c, w) with
  | Some (Ret _ (c', _)) =>
      ∃ new, history c' = (history c ++ new)%list
             ∧ exchange_complete new = true
  | _ => True
  end.
Proof.
  intros Hone. unfold ask, in_chat, send_message. cbn [fst snd].
  destruct (remote c _) as [r0|e0] eqn:Hr0; [|done].
  destruct (_run_tools_if_any fuel r0 _) as [[final [c2 w2]|e st2]|] eqn:Hrun;
    [|done|done].
  assert (∃ new, history c2 = (history c ++ new)%list
                 ∧ exchange_complete new = true) as Hgoal.
  { apply single_calls_are_all_answered in Hrun as (new & Hh & Hu).
    - cbn [history] in Hh. exists ([Sent (MText user_text); Received r0] ++ new)%list.
      split; [by rewrite Hh, <- app_assoc|].
      unfold exchange_complete. cbn [app unanswered result_names call_names
                                      answer_all]. by rewrite Hu.
    - exact Hone.
    - by eapply Hone. }
  destruct (text final) as [t|e]; [done|].
  destruct (isinstance e "Exception"); [|done].
  destruct (candidates final) as [|cand cs]; [done|].
  by destruct (parts (cand_content cand)).
Qed.

Lemma ask_answers_every_call_when_calls_come_singly_witness :
  (∀ h r, remote (mkChat [] (scripted script_one_call)) h = Reply r →
          (length (response_calls r) ≤ 1)%nat)
  ∧ match ask 2 "hello" (mkChat [] (scripted script_one_call), w0) with
    | Some (Ret _ (c', _)) =>
        ∃ new, history c' = (history (mkChat [] (scripted script_one_call)) ++ new)%list
               ∧ exchange_complete new = true
    | _ => True
    end.
Proof.
  assert (∀ h r, remote (mkChat [] (scripted script_one_call)) h = Reply r →
                 (length (response_calls r) ≤ 1)%nat) as H.
  { intros h r [= <-]. unfold script_one_call.
    destruct (received h) as [|[|n]]; vm_compute; lia. }
  split; [exact H|].
  exact (ask_answers_every_call_when_calls_come_singly 2 "hello"
           (mkChat [] (scripted script_one_call)) w0 H).
Defined.

End SingleCalls.
